(** * The KBFS block prefetcher ([libkbfs/prefetcher.go]) as a shallow embedding

    The worker goroutine of [blockPrefetcher] owns two maps, [prefetches] and
    [rescheduled], and mutates [*prefetch] records through pointers.  The
    embedding keeps that shape: a store of records indexed by locations, the
    two maps, the channels the worker writes to, and a trace of the calls it
    makes on its collaborators (retriever, caches, timers, wait channels).
    Every function of the source becomes a computation in a state monad with
    an abort outcome for Go's [panic]. *)

From Stdlib Require Import ZArith String List Sorted Permutation Lia.
From stdpp Require Import base gmap strings list fin_maps.

Local Open Scope Z_scope.
Set Warnings "-clear-no-such-hyp".

(** ** Identifiers and blocks

    Modelled from the spec: [BlockPointer], [DirEntry], [FileBlock] and
    [DirBlock] are declared outside [prefetcher.go]; the spec gives a block
    pointer an [ID] and a [RefNonce], and the source reads [IsInd], [IPtrs],
    [Children], [Type] and (through [dirEntriesBySizeAsc]) [Size]. *)

Abbreviation kbfsblock_ID := N (only parsing).
Abbreviation kbfsblock_RefNonce := N (only parsing).
Abbreviation loc := positive (only parsing).
Abbreviation chan := N (only parsing).
Abbreviation time_Duration := Z (only parsing).

Record BlockPointer := mkBlockPointer {
  ID : kbfsblock_ID;
  RefNonce : kbfsblock_RefNonce
}.

#[global] Instance BlockPointer_eq_dec : EqDecision BlockPointer.
Proof. solve_decision. Defined.

#[global] Instance BlockPointer_countable : Countable BlockPointer.
Proof.
  refine (inj_countable' (fun p => (ID p, RefNonce p))
                         (fun q => mkBlockPointer (fst q) (snd q)) _).
  intros []; reflexivity.
Defined.

Inductive EntryType := File | Exec | Dir | Sym | UnknownEntryType (n : N).

Record DirEntry := mkDirEntry {
  de_BlockPointer : BlockPointer;
  de_Type : EntryType;
  de_Size : N
}.

Inductive Block :=
| FileBlock (IsInd : bool) (IPtrs : list BlockPointer)
| DirBlock (IsInd : bool) (IPtrs : list BlockPointer)
           (Children : gmap string DirEntry)
| CommonBlock.

Inductive PrefetchStatus := NoPrefetch | TriggeredPrefetch | FinishedPrefetch.

#[global] Instance PrefetchStatus_eq_dec : EqDecision PrefetchStatus.
Proof. solve_decision. Defined.

(** Modelled from the spec: [dirEntryMapToDirEntries] and the order
    [dirEntriesBySizeAsc] are declared outside [prefetcher.go]; the spec has
    direct directory children processed in ascending size order.  The entries
    of the map are listed and sorted by [Size], smallest first. *)
Definition dirEntryMapToDirEntries (children : gmap string DirEntry)
  : list DirEntry :=
  map snd (map_to_list children).

Fixpoint insertBySize (e : DirEntry) (l : list DirEntry) : list DirEntry :=
  match l with
  | [] => [e]
  | x :: l' =>
      if (de_Size e <=? de_Size x)%N then e :: l else x :: insertBySize e l'
  end.

Definition sortBySizeAsc (l : list DirEntry) : list DirEntry :=
  foldr insertBySize [] l.

(** Go's [int] on a 64-bit platform: arithmetic wraps around. *)
Definition wrap_int (z : Z) : Z := (z + 2 ^ 63) mod 2 ^ 64 - 2 ^ 63.

(** ** The collaborators the prefetcher only consumes

    Actions, key metadata, cache lifetimes, the [Block] capability set and
    the backoff library are declared outside the source; they are an
    interface here, as they are for the prefetcher. *)

Class Externals := {
  KeyMetadata : Type;
  tlf_ID : Type;
  TlfID : KeyMetadata -> tlf_ID;
  BlockCacheLifetime : Type;
  TransientEntry : BlockCacheLifetime;
  DiskBlockCacheType : Type;
  BlockRequestAction : Type;
  BlockRequestAction_eq_dec :: EqDecision BlockRequestAction;
  BlockRequestSolo : BlockRequestAction;
  Combine : BlockRequestAction -> BlockRequestAction -> BlockRequestAction;
  Prefetch : BlockRequestAction -> Block -> bool;
  Sync : BlockRequestAction -> bool;
  DeepSync : BlockRequestAction -> bool;
  StopIfFull : BlockRequestAction -> bool;
  CacheType : BlockRequestAction -> DiskBlockCacheType;
  ChildAction : BlockRequestAction -> Block -> BlockRequestAction;
  SoloAction : BlockRequestAction -> BlockRequestAction;
  NewEmpty : Block -> Block;
  IsTail : Block -> bool;
  defaultOnDemandRequestPriority : Z;
  BackOff : Type;
  (** [None] is [backoff.Stop]. *)
  NextBackOff : BackOff -> option time_Duration * BackOff
}.

Section Prefetcher.
Context `{Externals}.

(** ** Requests, records and the worker's state *)

Record prefetchRequest := mkPrefetchRequest {
  req_ptr : BlockPointer;
  req_block : option Block;
  req_kmd : option KeyMetadata;
  req_priority : Z;
  req_lifetime : BlockCacheLifetime;
  req_prefetchStatus : PrefetchStatus;
  req_action : BlockRequestAction;
  req_sendCh : option chan
}.

Definition set_req_action (a : BlockRequestAction) (r : prefetchRequest)
  : prefetchRequest :=
  mkPrefetchRequest (req_ptr r) (req_block r) (req_kmd r) (req_priority r)
    (req_lifetime r) (req_prefetchStatus r) a (req_sendCh r).

(** [parents] maps a refnonce to a Go [map[BlockPointer]bool] in which only
    [true] is ever stored: a set.  [waitChClosed] records that [Close] ran. *)
Record prefetch := mkPrefetch {
  subtreeBlockCount : Z;
  subtreeTriggered : bool;
  req : option prefetchRequest;
  parents : gmap kbfsblock_RefNonce (gset BlockPointer);
  waitChClosed : bool
}.

#[global] Instance prefetch_inhabited : Inhabited prefetch :=
  populate (mkPrefetch 0 false None ∅ false).

Definition set_subtreeBlockCount (c : Z) (p : prefetch) : prefetch :=
  mkPrefetch c (subtreeTriggered p) (req p) (parents p) (waitChClosed p).
Definition set_subtreeTriggered (t : bool) (p : prefetch) : prefetch :=
  mkPrefetch (subtreeBlockCount p) t (req p) (parents p) (waitChClosed p).
Definition set_req (r : option prefetchRequest) (p : prefetch) : prefetch :=
  mkPrefetch (subtreeBlockCount p) (subtreeTriggered p) r (parents p)
    (waitChClosed p).
Definition set_parents (ps : gmap kbfsblock_RefNonce (gset BlockPointer))
  (p : prefetch) : prefetch :=
  mkPrefetch (subtreeBlockCount p) (subtreeTriggered p) (req p) ps
    (waitChClosed p).
Definition set_waitChClosed (c : bool) (p : prefetch) : prefetch :=
  mkPrefetch (subtreeBlockCount p) (subtreeTriggered p) (req p) (parents p) c.

(** The timer made by [time.AfterFunc]: its delay and the request its
    callback hands to [triggerPrefetch]. *)
Record Timer := mkTimer {
  timer_d : time_Duration;
  timer_req : prefetchRequest
}.

Record rescheduledPrefetch := mkRescheduledPrefetch {
  off : BackOff;
  timer : option Timer
}.

Inductive WaitSignal := closedCh | waitCh (l : loc).

(** What the worker does to the world outside its maps. *)
Inductive Effect :=
| EffRequest (priority : Z) (kmd : option KeyMetadata) (ptr : BlockPointer)
    (block : Block) (lifetime : BlockCacheLifetime)
    (action : BlockRequestAction)
| EffPutInCaches (ptr : BlockPointer) (tlfID : tlf_ID) (block : Block)
    (lifetime : BlockCacheLifetime) (status : PrefetchStatus)
| EffClose (l : loc)
| EffTimerStop (blockID : kbfsblock_ID)
| EffAfterFunc (blockID : kbfsblock_ID) (d : time_Duration)
| EffSend (ch : chan) (w : WaitSignal)
| LogPrefetching (ptr : BlockPointer) (action : BlockRequestAction)
| LogSkipUnknownType (n : N)
| LogSkipPrefetch (blockID : kbfsblock_ID)
| LogSkipReschedule (blockID : kbfsblock_ID)
| LogSkipCancel (ptr : BlockPointer).

Record State := mkState {
  heap : gmap loc prefetch;
  prefetches : gmap kbfsblock_ID loc;
  rescheduled : gmap kbfsblock_ID rescheduledPrefetch;
  prefetchRequestCh : list prefetchRequest;
  prefetchCancelCh : list BlockPointer;
  prefetchRescheduleCh : list prefetchRequest;
  inFlightFetches : list Effect;
  shutdownCh : bool;
  isShuttingDown : bool;
  trace : list Effect
}.

Definition set_heap (f : gmap loc prefetch -> gmap loc prefetch) (s : State)
  : State :=
  mkState (f (heap s)) (prefetches s) (rescheduled s) (prefetchRequestCh s)
    (prefetchCancelCh s) (prefetchRescheduleCh s) (inFlightFetches s)
    (shutdownCh s) (isShuttingDown s) (trace s).
Definition set_prefetches (f : gmap kbfsblock_ID loc -> gmap kbfsblock_ID loc)
  (s : State) : State :=
  mkState (heap s) (f (prefetches s)) (rescheduled s) (prefetchRequestCh s)
    (prefetchCancelCh s) (prefetchRescheduleCh s) (inFlightFetches s)
    (shutdownCh s) (isShuttingDown s) (trace s).
Definition set_rescheduled
  (f : gmap kbfsblock_ID rescheduledPrefetch ->
       gmap kbfsblock_ID rescheduledPrefetch) (s : State) : State :=
  mkState (heap s) (prefetches s) (f (rescheduled s)) (prefetchRequestCh s)
    (prefetchCancelCh s) (prefetchRescheduleCh s) (inFlightFetches s)
    (shutdownCh s) (isShuttingDown s) (trace s).
Definition set_prefetchRequestCh
  (f : list prefetchRequest -> list prefetchRequest) (s : State) : State :=
  mkState (heap s) (prefetches s) (rescheduled s) (f (prefetchRequestCh s))
    (prefetchCancelCh s) (prefetchRescheduleCh s) (inFlightFetches s)
    (shutdownCh s) (isShuttingDown s) (trace s).
Definition set_prefetchCancelCh
  (f : list BlockPointer -> list BlockPointer) (s : State) : State :=
  mkState (heap s) (prefetches s) (rescheduled s) (prefetchRequestCh s)
    (f (prefetchCancelCh s)) (prefetchRescheduleCh s) (inFlightFetches s)
    (shutdownCh s) (isShuttingDown s) (trace s).
Definition set_prefetchRescheduleCh
  (f : list prefetchRequest -> list prefetchRequest) (s : State) : State :=
  mkState (heap s) (prefetches s) (rescheduled s) (prefetchRequestCh s)
    (prefetchCancelCh s) (f (prefetchRescheduleCh s)) (inFlightFetches s)
    (shutdownCh s) (isShuttingDown s) (trace s).
Definition set_inFlightFetches (f : list Effect -> list Effect) (s : State)
  : State :=
  mkState (heap s) (prefetches s) (rescheduled s) (prefetchRequestCh s)
    (prefetchCancelCh s) (prefetchRescheduleCh s) (f (inFlightFetches s))
    (shutdownCh s) (isShuttingDown s) (trace s).
Definition set_shutdownCh (b : bool) (s : State) : State :=
  mkState (heap s) (prefetches s) (rescheduled s) (prefetchRequestCh s)
    (prefetchCancelCh s) (prefetchRescheduleCh s) (inFlightFetches s)
    b (isShuttingDown s) (trace s).
Definition set_isShuttingDown (b : bool) (s : State) : State :=
  mkState (heap s) (prefetches s) (rescheduled s) (prefetchRequestCh s)
    (prefetchCancelCh s) (prefetchRescheduleCh s) (inFlightFetches s)
    (shutdownCh s) b (trace s).
Definition set_trace (f : list Effect -> list Effect) (s : State) : State :=
  mkState (heap s) (prefetches s) (rescheduled s) (prefetchRequestCh s)
    (prefetchCancelCh s) (prefetchRescheduleCh s) (inFlightFetches s)
    (shutdownCh s) (isShuttingDown s) (f (trace s)).

(** [newBlockPrefetcher]: empty maps and channels, nothing shut down. *)
Definition newBlockPrefetcher : State :=
  mkState ∅ ∅ ∅ [] [] [] [] false false [].

(** ** What the collaborators answer

    A synchronous call on the retriever or the disk cache returns what the
    outside world decides; that answer may depend on everything the worker
    did before, so it is a function of the trace.  [selectShutdown] is the
    choice Go's [select] makes between a send on an unbounded channel and
    the closed [shutdownCh] once both are ready. *)
Record Env := mkEnv {
  makeNewBackOff : BackOff;
  hasDiskBlockCache : bool;
  DoesCacheHaveSpace : list Effect -> DiskBlockCacheType -> option bool;
  retrieverRequest : list Effect -> BlockPointer -> BlockRequestAction ->
                     Block -> option Block;
  selectShutdown : list Effect -> bool
}.

(** ** The monad: state, [panic], and fuel for the recursive walks *)

Inductive Result (A : Type) : Type :=
| Ok (a : A) (s : State)
| Panic (msg : string)
| OutOfFuel.
Arguments Ok {A} a s.
Arguments Panic {A} msg.
Arguments OutOfFuel {A}.

Definition M (A : Type) : Type := State -> Result A.

#[global] Instance M_ret : MRet M := fun A a s => Ok a s.
#[global] Instance M_bind : MBind M := fun A B f m s =>
  match m s with
  | Ok a s' => f a s'
  | Panic msg => Panic msg
  | OutOfFuel => OutOfFuel
  end.
Definition panic {A} (msg : string) : M A := fun _ => Panic msg.
Definition get : M State := fun s => Ok s s.
Definition modify (f : State -> State) : M unit := fun s => Ok tt (f s).

Definition emit (e : Effect) : M unit :=
  modify (set_trace (fun t => t ++ [e])).

(** Reading and writing through a [*prefetch]. *)
Definition getPrefetch (l : loc) : M prefetch := fun s => Ok (heap s !!! l) s.
Definition modifyPrefetch (l : loc) (g : prefetch -> prefetch) : M unit :=
  modify (set_heap (fun h => <[l := g (h !!! l)]> h)).

(** A [for ... range] loop whose body returns nothing. *)
Fixpoint forEach {A} (l : list A) (body : A -> M unit) : M unit :=
  match l with
  | [] => mret tt
  | x :: l' => body x;; forEach l' body
  end.

(** A method call on a nil interface value. *)
Definition nilDereference {A} : M A :=
  panic "invalid memory address or nil pointer dereference".

Definition blockNewEmpty (b : option Block) : M Block :=
  match b with
  | Some b => mret (NewEmpty b)
  | None => nilDereference
  end.

Definition kmdTlfID (kmd : option KeyMetadata) : M tlf_ID :=
  match kmd with
  | Some k => mret (TlfID k)
  | None => nilDereference
  end.

Context (env : Env).

(** [<-p.retriever.Request(...)]: the call is recorded, and the answer is the
    block as the retriever filled it in, or [None] for an error. *)
Definition retrieverRequestSync (priority : Z) (kmd : option KeyMetadata)
  (ptr : BlockPointer) (b : Block) (lifetime : BlockCacheLifetime)
  (action : BlockRequestAction) : M (option Block) :=
  s ← get;
  emit (EffRequest priority kmd ptr b lifetime action);;
  mret (retrieverRequest env (trace s) ptr action b).

(** ** [newPrefetch] and [Close] *)

Definition newPrefetch (count : Z) (triggered : bool) (r : prefetchRequest)
  : M loc :=
  fun s =>
    let l := fresh (dom (heap s)) in
    Ok l (set_heap <[l := mkPrefetch count triggered (Some r) ∅ false]> s).

(** [close(p.waitCh); p.cancel()]; closing a closed channel panics in Go. *)
Definition Close (l : loc) : M unit :=
  pp ← getPrefetch l;
  if waitChClosed pp then panic "close of closed channel"
  else modifyPrefetch l (set_waitChClosed true);; emit (EffClose l).

(** ** The tree walks

    [pre.parents[n]], read as Go reads a missing key: the empty map. *)
Definition bucket (pp : prefetch) (n : kbfsblock_RefNonce)
  : gset BlockPointer :=
  default ∅ (parents pp !! n).

(** [delete(pre.parents[n], pptr)] *)
Definition deleteFromBucket (l : loc) (n : kbfsblock_RefNonce)
  (pptr : BlockPointer) : M unit :=
  modifyPrefetch l
    (fun pp => set_parents (alter (fun b => b ∖ {[pptr]}) n (parents pp)) pp).

(** [if len(pre.parents[n]) == 0 { delete(pre.parents, n) }] *)
Definition deleteEmptyBucket (l : loc) (n : kbfsblock_RefNonce) : M unit :=
  pp ← getPrefetch l;
  if decide (size (bucket pp n) = 0%nat)
  then modifyPrefetch l (fun pp => set_parents (delete n (parents pp)) pp)
  else mret tt.

(** One iteration of the loops over parent pointers: prune a parent that is
    no longer in [prefetches], recurse into one that is. *)
Definition visitParent (recurse : BlockPointer -> loc -> M unit) (pre : loc)
  (n : kbfsblock_RefNonce) (pptr : BlockPointer) : M unit :=
  s ← get;
  match prefetches s !! ID pptr with
  | None => deleteFromBucket pre n pptr
  | Some parent => recurse pptr parent
  end.

(** The walks recurse along parent pointers; the recursion is bounded by
    [fuel], and running out of it is an outcome of its own.  A [range] loop is
    run over the keys the map has when the loop starts: the body deletes only
    the key it is at, and in a forest (the topology the source assumes) a
    walk over the ancestors never reaches the record it started from.  The
    [recover] handlers only log and panic again. *)
Fixpoint applyToPtrParentsRecursive (fuel : nat)
  (f : BlockPointer -> loc -> M unit) (ptr : BlockPointer) (pre : loc)
  : M unit :=
  match fuel with
  | O => fun _ => OutOfFuel
  | S fuel' =>
      pp ← getPrefetch pre;
      forEach (elements (bucket pp (RefNonce ptr)))
        (visitParent (applyToPtrParentsRecursive fuel' f) pre (RefNonce ptr));;
      deleteEmptyBucket pre (RefNonce ptr);;
      f ptr pre
  end.

Fixpoint applyToParentsRecursive (fuel : nat)
  (f : kbfsblock_ID -> loc -> M unit) (blockID : kbfsblock_ID) (pre : loc)
  : M unit :=
  match fuel with
  | O => fun _ => OutOfFuel
  | S fuel' =>
      pp ← getPrefetch pre;
      forEach (map_to_list (parents pp))
        (fun '(refNonce, refMap) =>
           forEach (elements refMap)
             (visitParent
                (fun pptr parent =>
                   applyToParentsRecursive fuel' f (ID pptr) parent)
                pre refNonce);;
           deleteEmptyBucket pre refNonce);;
      f blockID pre
  end.

(** ** Completion, decrement, cancellation *)

Definition clearRescheduleState (blockID : kbfsblock_ID) : M unit :=
  s ← get;
  match rescheduled s !! blockID with
  | None => mret tt
  | Some rp =>
      match timer rp with
      | Some _ =>
          emit (EffTimerStop blockID);;
          modify (set_rescheduled
                    <[blockID := mkRescheduledPrefetch (off rp) None]>)
      | None => mret tt
      end
  end.

(** The closure [completePrefetch(numBlocks)] returns.  [defer pp.Close()]
    runs when the closure returns, on either path. *)
Definition completePrefetch (numBlocks : Z) (blockID : kbfsblock_ID)
  (pp : loc) : M unit :=
  modifyPrefetch pp
    (fun p =>
       set_subtreeBlockCount (wrap_int (subtreeBlockCount p - numBlocks)) p);;
  p ← getPrefetch pp;
  if subtreeBlockCount p <? 0
  then panic "completePrefetch overstepped its bounds"
  else
    match req p with
    | None => panic "completePrefetch got a nil req"
    | Some r =>
        if subtreeBlockCount p =? 0 then
          modify (set_prefetches (delete blockID));;
          clearRescheduleState blockID;;
          modify (set_rescheduled (delete blockID));;
          b ← blockNewEmpty (req_block r);
          res ← retrieverRequestSync defaultOnDemandRequestPriority
                  (req_kmd r) (req_ptr r) b (req_lifetime r) BlockRequestSolo;
          match res with
          | None => Close pp
          | Some b' =>
              tlfID ← kmdTlfID (req_kmd r);
              emit (EffPutInCaches (req_ptr r) tlfID b' (req_lifetime r)
                      FinishedPrefetch);;
              Close pp
          end
        else mret tt
    end.

Definition decrementPrefetch (_ : kbfsblock_ID) (pp : loc) : M unit :=
  modifyPrefetch pp
    (fun p => set_subtreeBlockCount (wrap_int (subtreeBlockCount p - 1)) p);;
  p ← getPrefetch pp;
  if subtreeBlockCount p <? 0
  then panic "decrementPrefetch overstepped its bounds"
  else mret tt.

Definition cancelPrefetch (ptr : BlockPointer) (pp : loc) : M unit :=
  modifyPrefetch pp
    (fun p => set_parents (delete (RefNonce ptr) (parents p)) p);;
  p ← getPrefetch pp;
  if decide (size (parents p) = 0%nat) then
    modify (set_prefetches (delete (ID ptr)));;
    Close pp;;
    clearRescheduleState (ID ptr);;
    modify (set_rescheduled (delete (ID ptr)))
  else mret tt.

Definition calculatePriority (basePriority : Z) (_ : BlockRequestAction) : Z :=
  wrap_int (basePriority - 1).

(** ** [request]: one child of the block being triggered

    [idsSeen] is the map the caller threads through the enumeration; the
    function returns it updated beside [numBlocks]. *)
Definition request (priority : Z) (kmd : option KeyMetadata)
  (ptr : BlockPointer) (block : Block) (lifetime : BlockCacheLifetime)
  (parentPtr : BlockPointer) (isParentNew : bool)
  (action : BlockRequestAction) (idsSeen : gset kbfsblock_ID)
  : M (Z * gset kbfsblock_ID) :=
  if decide (ID ptr ∈ idsSeen) then mret (0, idsSeen)
  else
    let idsSeen := idsSeen ∪ {[ID ptr]} in
    s ← get;
    let isPrefetchWaiting := bool_decide (is_Some (prefetches s !! ID ptr)) in
    pre ← match prefetches s !! ID ptr with
          | Some pre => mret pre
          | None =>
              pre ← newPrefetch 1 false
                      (mkPrefetchRequest ptr (Some block) kmd priority
                         lifetime NoPrefetch action None);
              modify (set_prefetches <[ID ptr := pre]>);;
              mret pre
          end;
    pp ← getPrefetch pre;
    match req pp with
    | None => nilDereference
    | Some r =>
        let newAction := Combine action (req_action r) in
        (if negb isPrefetchWaiting
            || negb (bool_decide (req_action r = newAction))
         then
           modifyPrefetch pre (set_req (Some (set_req_action newAction r)));;
           emit (EffRequest priority kmd ptr block lifetime action);;
           modify (set_inFlightFetches
                     (fun q =>
                        q ++ [EffRequest priority kmd ptr block lifetime
                                action]))
         else mret tt);;
        s ← get;
        match prefetches s !! ID parentPtr with
        | None =>
            panic ("prefetcher doesn't know about parent block when trying "
                   +:+ "to record parent-child relationship")
        | Some _ =>
            pp ← getPrefetch pre;
            if negb (bool_decide (parentPtr ∈ bucket pp (RefNonce ptr)))
               || isParentNew
            then
              modifyPrefetch pre
                (fun pp =>
                   set_parents
                     (<[RefNonce ptr :=
                          bucket pp (RefNonce ptr) ∪ {[parentPtr]}]>
                        (parents pp)) pp);;
              mret (subtreeBlockCount pp, idsSeen)
            else mret (0, idsSeen)
        end
    end.

(** A [for ... range] loop that updates local variables. *)
Fixpoint foldM {A S} (body : S -> A -> M S) (l : list A) (acc : S) : M S :=
  match l with
  | [] => mret acc
  | x :: l' => acc' ← body acc x; foldM body l' acc'
  end.

(** The body shared by the two loops over [b.IPtrs]. *)
Definition requestIPtr (newPriority : Z) (kmd : option KeyMetadata)
  (b : Block) (lifetime : BlockCacheLifetime) (parentPtr : BlockPointer)
  (isPrefetchNew : bool) (action : BlockRequestAction)
  (acc : Z * gset kbfsblock_ID) (ptr : BlockPointer)
  : M (Z * gset kbfsblock_ID) :=
  '(n, idsSeen) ← request newPriority kmd ptr (NewEmpty b) lifetime parentPtr
                    isPrefetchNew action acc.2;
  mret (wrap_int (acc.1 + n), idsSeen).

Definition prefetchIndirectFileBlock (parentPtr : BlockPointer) (b : Block)
  (IPtrs : list BlockPointer) (kmd : option KeyMetadata)
  (lifetime : BlockCacheLifetime) (isPrefetchNew : bool)
  (action : BlockRequestAction) (basePriority : Z) : M (Z * bool) :=
  let newPriority := calculatePriority basePriority action in
  '(numBlocks, _) ← foldM (requestIPtr newPriority kmd b lifetime parentPtr
                             isPrefetchNew action) IPtrs (0, ∅);
  mret (numBlocks, bool_decide (length IPtrs = 0%nat)).

Definition prefetchIndirectDirBlock (parentPtr : BlockPointer) (b : Block)
  (IPtrs : list BlockPointer) (kmd : option KeyMetadata)
  (lifetime : BlockCacheLifetime) (isPrefetchNew : bool)
  (action : BlockRequestAction) (basePriority : Z) : M (Z * bool) :=
  let newPriority := calculatePriority basePriority action in
  '(numBlocks, _) ← foldM (requestIPtr newPriority kmd b lifetime parentPtr
                             isPrefetchNew action) IPtrs (0, ∅);
  mret (numBlocks, bool_decide (length IPtrs = 0%nat)).

(** The body of the loop over the sorted directory entries; the accumulator
    is [(numBlocks, totalChildEntries, idsSeen)].  [totalChildEntries] counts
    entries of a slice, so it stays below the width of [int]. *)
Definition prefetchDirEntry (newPriority : Z) (kmd : option KeyMetadata)
  (lifetime : BlockCacheLifetime) (parentPtr : BlockPointer)
  (isPrefetchNew : bool) (action : BlockRequestAction)
  (acc : Z * nat * gset kbfsblock_ID) (entry : DirEntry)
  : M (Z * nat * gset kbfsblock_ID) :=
  let process (block : Block) :=
    emit (LogPrefetching (de_BlockPointer entry) action);;
    '(n, idsSeen) ← request newPriority kmd (de_BlockPointer entry) block
                      lifetime parentPtr isPrefetchNew action acc.2;
    mret (wrap_int (acc.1.1 + n), S acc.1.2, idsSeen) in
  match de_Type entry with
  | Dir => process (DirBlock false [] ∅)
  | File => process (FileBlock false [])
  | Exec => process (FileBlock false [])
  | Sym => mret acc
  | UnknownEntryType n => emit (LogSkipUnknownType n);; mret acc
  end.

Definition prefetchDirectDirBlock (parentPtr : BlockPointer)
  (Children : gmap string DirEntry) (kmd : option KeyMetadata)
  (lifetime : BlockCacheLifetime) (isPrefetchNew : bool)
  (action : BlockRequestAction) (basePriority : Z) : M (Z * bool) :=
  let dirEntries := sortBySizeAsc (dirEntryMapToDirEntries Children) in
  let newPriority := calculatePriority basePriority action in
  '(numBlocks, totalChildEntries, _) ←
    foldM (prefetchDirEntry newPriority kmd lifetime parentPtr isPrefetchNew
             action) dirEntries (0, 0%nat, ∅);
  mret (numBlocks, bool_decide (totalChildEntries = 0%nat)).

(** [handlePrefetch] returns [None] for the error [unknown block type]. *)
Definition handlePrefetch (pre : loc) (isPrefetchNew : bool)
  (action : BlockRequestAction) (b : Block) : M (option (Z * bool)) :=
  pp ← getPrefetch pre;
  let childAction := ChildAction action b in
  match b with
  | FileBlock IsInd IPtrs =>
      if IsInd then
        match req pp with
        | None => nilDereference
        | Some r =>
            res ← prefetchIndirectFileBlock (req_ptr r) b IPtrs (req_kmd r)
                    (req_lifetime r) isPrefetchNew childAction
                    (req_priority r);
            mret (Some res)
        end
      else mret (Some (0, true))
  | DirBlock IsInd IPtrs Children =>
      match req pp with
      | None => nilDereference
      | Some r =>
          res ← (if IsInd then
                   prefetchIndirectDirBlock (req_ptr r) b IPtrs (req_kmd r)
                     (req_lifetime r) isPrefetchNew childAction
                     (req_priority r)
                 else
                   prefetchDirectDirBlock (req_ptr r) Children (req_kmd r)
                     (req_lifetime r) isPrefetchNew childAction
                     (req_priority r));
          mret (Some res)
      end
  | CommonBlock => mret None
  end.

(** ** Rescheduling *)

Definition rescheduleTopBlock (blockID : kbfsblock_ID) (pp : loc) : M unit :=
  p ← getPrefetch pp;
  if decide (size (parents p) ≠ 0%nat) then
    forEach (map fst (map_to_list (parents p)))
      (fun refNonce => cancelPrefetch (mkBlockPointer blockID refNonce) pp)
  else
    modify (set_prefetches (delete blockID));;
    Close pp;;
    s ← get;
    rp ← match rescheduled s !! blockID with
         | Some rp => mret rp
         | None =>
             let rp := mkRescheduledPrefetch (makeNewBackOff env) None in
             modify (set_rescheduled <[blockID := rp]>);;
             mret rp
         end;
    match timer rp with
    | Some _ => mret tt
    | None =>
        p ← getPrefetch pp;
        match req p with
        | None => nilDereference
        | Some r =>
            let '(d, off') := NextBackOff (off rp) in
            modify (set_rescheduled
                      <[blockID := mkRescheduledPrefetch off' None]>);;
            match d with
            | None => mret tt
            | Some d =>
                emit (EffAfterFunc blockID d);;
                modify (set_rescheduled
                          <[blockID :=
                              mkRescheduledPrefetch off'
                                (Some (mkTimer d r))]>)
            end
        end
    end.

(** The two-way [select] of [reschedulePrefetch] and [triggerPrefetch]: the
    send on the unbounded channel is always ready, the receive from
    [shutdownCh] once it is closed; the environment picks between the two. *)
Definition reschedulePrefetch (r : prefetchRequest) : M unit :=
  s ← get;
  if shutdownCh s && selectShutdown env (trace s)
  then emit (LogSkipReschedule (ID (req_ptr r)))
  else modify (set_prefetchRescheduleCh (fun q => q ++ [r])).

Definition triggerPrefetch (r : prefetchRequest) : M unit :=
  s ← get;
  if shutdownCh s && selectShutdown env (trace s)
  then emit (LogSkipPrefetch (ID (req_ptr r)))
  else modify (set_prefetchRequestCh (fun q => q ++ [r])).

Definition stopIfNeeded (r : prefetchRequest) : M bool :=
  if negb (hasDiskBlockCache env) then mret false
  else
    s ← get;
    match DoesCacheHaveSpace env (trace s) (CacheType (req_action r)) with
    | None => mret false
    | Some true => mret false
    | Some false =>
        if Sync (req_action r) then reschedulePrefetch r;; mret true
        else mret (StopIfFull (req_action r))
    end.

(** ** The cases of the [select] in [run] *)

(** [case ptrInt := <-p.prefetchCancelCh.Out()] *)
Definition runCancel (fuel : nat) (ptr : BlockPointer) : M unit :=
  s ← get;
  match prefetches s !! ID ptr with
  | None => mret tt
  | Some pre => applyToPtrParentsRecursive fuel cancelPrefetch ptr pre
  end.

(** [case reqInt := <-p.prefetchRescheduleCh.Out()] *)
Definition runReschedule (fuel : nat) (r : prefetchRequest) : M unit :=
  let blockID := ID (req_ptr r) in
  s ← get;
  pre ← match prefetches s !! blockID with
        | None =>
            pre ← newPrefetch 1 false r;
            modify (set_prefetches <[blockID := pre]>);;
            mret pre
        | Some pre => modifyPrefetch pre (set_req (Some r));; mret pre
        end;
  applyToParentsRecursive fuel rescheduleTopBlock blockID pre.

(** The request case, from the finished-or-tail test on. *)
Definition runRequestFinished (fuel : nat) (r : prefetchRequest)
  (opre : option loc) (b : Block) : M unit :=
  match opre with
  | Some pre =>
      pp ← getPrefetch pre;
      if subtreeBlockCount pp <? 0
      then panic "the subtreeBlockCount for a block should never be < 0"
      else
        applyToParentsRecursive fuel
          (completePrefetch (subtreeBlockCount pp)) (ID (req_ptr r)) pre
  | None =>
      if negb (bool_decide (req_prefetchStatus r = FinishedPrefetch)) then
        tlfID ← kmdTlfID (req_kmd r);
        emit (EffPutInCaches (req_ptr r) tlfID b (req_lifetime r)
                FinishedPrefetch)
      else mret tt
  end.

(** [pre.req.action], with Go's panic when [pre.req] is nil. *)
Definition preReqAction (pre : loc) : M BlockRequestAction :=
  pp ← getPrefetch pre;
  match req pp with
  | None => nilDereference
  | Some r => mret (req_action r)
  end.

(** [pre.req.action = newAction] *)
Definition setPreReqAction (pre : loc) (a : BlockRequestAction) : M unit :=
  pp ← getPrefetch pre;
  match req pp with
  | None => nilDereference
  | Some r => modifyPrefetch pre (set_req (Some (set_req_action a r)))
  end.

(** From [handlePrefetch] to the end of the request case. *)
Definition runRequestChildren (fuel : nat) (r : prefetchRequest)
  (isPrefetchWaiting : bool) (pre : loc) (action : BlockRequestAction)
  (b : Block) : M unit :=
  res ← handlePrefetch pre (negb isPrefetchWaiting) action b;
  match res : option (Z * bool) with
  | None => mret tt
  | Some (numBlocks, isTail) =>
      if isTail : bool then
        applyToParentsRecursive fuel (completePrefetch 0) (ID (req_ptr r)) pre
      else if numBlocks =? 0 then mret tt
      else
        (if negb isPrefetchWaiting
         then modify (set_prefetches <[ID (req_ptr r) := pre]>)
         else mret tt);;
        applyToParentsRecursive fuel
          (fun _ pp =>
             modifyPrefetch pp
               (fun p =>
                  set_subtreeBlockCount
                    (wrap_int (subtreeBlockCount p + numBlocks)) p))
          (ID (req_ptr r)) pre
  end.

(** The request case after the finished-or-tail test.  [aliased] holds when
    [pre.req] was nil and has been set to [req] itself: the two then name one
    object, and [req.action] reads what [pre.req.action] was last set to. *)
Definition runRequestTrigger (fuel : nat) (r : prefetchRequest)
  (opre : option loc) (aliased : bool) (b : Block) : M unit :=
  if negb (Prefetch (req_action r) b) then
    match opre with
    | Some pre =>
        a ← preReqAction pre;
        if negb (Prefetch a b)
        then applyToPtrParentsRecursive fuel cancelPrefetch (req_ptr r) pre
        else mret tt
    | None => mret tt
    end
  else
    alreadyTriggered ←
      (if bool_decide (req_prefetchStatus r = TriggeredPrefetch)
          && negb (DeepSync (req_action r))
       then
         match opre with
         | Some pre =>
             a ← preReqAction pre;
             mret (bool_decide (Sync (req_action r) = Sync a)
                   && bool_decide (StopIfFull (req_action r) = StopIfFull a))
         | None => mret false
         end
       else mret false);
    if alreadyTriggered : bool then mret tt
    else
      doStop ← stopIfNeeded r;
      if doStop : bool then mret tt
      else
        match opre with
        | Some pre =>
            a ← preReqAction pre;
            let newAction := Combine a (req_action r) in
            pp ← getPrefetch pre;
            if subtreeTriggered pp then
              (if subtreeBlockCount pp =? 0
               then applyToPtrParentsRecursive fuel cancelPrefetch
                      (req_ptr r) pre
               else mret tt);;
              a ← preReqAction pre;
              if bool_decide (newAction ≠ a) then
                setPreReqAction pre newAction;;
                runRequestChildren fuel r true pre
                  (if aliased then newAction else req_action r) b
              else mret tt
            else
              if subtreeBlockCount pp =? 0 then
                panic ("prefetch was in the tree, wasn't triggered, "
                       +:+ "but had a block count of 0")
              else
                applyToParentsRecursive fuel decrementPrefetch
                  (ID (req_ptr r)) pre;;
                modifyPrefetch pre (set_subtreeTriggered true);;
                setPreReqAction pre newAction;;
                runRequestChildren fuel r true pre
                  (if aliased then newAction else req_action r) b
        | None =>
            pre ← newPrefetch 0 true r;
            modify (set_prefetches <[ID (req_ptr r) := pre]>);;
            runRequestChildren fuel r false pre (req_action r) b
        end.

(** [case reqInt := <-p.prefetchRequestCh.Out()] *)
Definition runRequest (fuel : nat) (r : prefetchRequest) : M unit :=
  s ← get;
  let opre := prefetches s !! ID (req_ptr r) in
  aliased ← match opre with
            | Some pre =>
                pp ← getPrefetch pre;
                match req pp with
                | None => modifyPrefetch pre (set_req (Some r));; mret true
                | Some _ => mret false
                end
            | None => mret false
            end;
  clearRescheduleState (ID (req_ptr r));;
  match req_sendCh r with
  | Some ch =>
      emit (EffSend ch (match opre with
                        | None => closedCh
                        | Some pre => waitCh pre
                        end))
  | None =>
      b ← blockNewEmpty (req_block r);
      res ← retrieverRequestSync defaultOnDemandRequestPriority (req_kmd r)
              (req_ptr r) b (req_lifetime r) (SoloAction (req_action r));
      match res with
      | None => mret tt
      | Some b =>
          if bool_decide (req_prefetchStatus r = FinishedPrefetch) || IsTail b
          then runRequestFinished fuel r opre b
          else runRequestTrigger fuel r opre aliased b
      end
  end.

(** [case <-p.almostDoneCh] *)
Definition runAlmostDone : M unit :=
  modify (set_isShuttingDown true);;
  s ← get;
  forEach (map fst (map_to_list (rescheduled s))) clearRescheduleState.

(** What one iteration of the loop in [run] receives. *)
Inductive Event :=
| EvInFlightDone
| EvCancel (ptr : BlockPointer)
| EvReschedule (r : prefetchRequest)
| EvRequest (r : prefetchRequest)
| EvAlmostDone.

Definition runIteration (fuel : nat) (ev : Event) : M unit :=
  match ev with
  | EvInFlightDone => mret tt
  | EvCancel ptr => runCancel fuel ptr
  | EvReschedule r => runReschedule fuel r
  | EvRequest r => runRequest fuel r
  | EvAlmostDone => runAlmostDone
  end.

(** A run of the worker: the events it receives, one iteration each. *)
Definition runEvents (fuel : nat) (evs : list Event) : M unit :=
  forEach evs (runIteration fuel).

(** The timer a reschedule armed, if any, and what its callback does. *)
Definition pendingTimer (s : State) (blockID : kbfsblock_ID) : option Timer :=
  rescheduled s !! blockID ≫= timer.

Definition timerCallback (t : Timer) : M unit := triggerPrefetch (timer_req t).

(** ** The public methods, called from other goroutines

    A [select] runs any one of its cases that is ready.  A send on one of the
    prefetcher's unbounded channels is always ready; a receive from
    [shutdownCh] is ready once [Shutdown] closed it; a receive from
    [ctx.Done()] once the caller's context is done. *)
Definition selects {A} (cases : list (bool * A)) (a : A) : Prop :=
  (true, a) ∈ cases.

Inductive error := errorsNew (msg : string) | ctxErr.

Definition waitChannelRequest (ptr : BlockPointer) (c : chan)
  : prefetchRequest :=
  mkPrefetchRequest ptr None None 0 TransientEntry NoPrefetch BlockRequestSolo
    (Some c).

(** The first [select] of [WaitChannelForBlockPrefetch]: the request is
    sent, or the call returns an error. *)
Definition WaitChannelForBlockPrefetch_send (ctxDone : bool)
  (ptr : BlockPointer) (c : chan) (s : State) (out : State + error) : Prop :=
  selects
    [ (true, inl (set_prefetchRequestCh
                    (fun q => q ++ [waitChannelRequest ptr c]) s));
      (shutdownCh s, inr (errorsNew "Already shut down"));
      (ctxDone, inr ctxErr) ] out.

(** The second [select], in the state [s] the prefetcher is in by then;
    [reply] is what the worker has sent on [c], if it has. *)
Definition WaitChannelForBlockPrefetch_wait (ctxDone : bool)
  (reply : option WaitSignal) (s : State) (out : WaitSignal + error) : Prop :=
  selects
    [ (bool_decide (is_Some reply), inl (default closedCh reply));
      (shutdownCh s, inr (errorsNew "Already shut down"));
      (ctxDone, inr ctxErr) ] out.

(** A whole call: [s1] and [ctxDone1] at the first [select], [s2], [reply]
    and [ctxDone2] at the second. *)
Definition WaitChannelForBlockPrefetch (ptr : BlockPointer) (c : chan)
  (ctxDone1 : bool) (s1 : State) (reply : option WaitSignal)
  (ctxDone2 : bool) (s2 : State) (out : WaitSignal + error) : Prop :=
  (exists e, WaitChannelForBlockPrefetch_send ctxDone1 ptr c s1 (inr e)
             /\ out = inr e)
  \/ (exists s1', WaitChannelForBlockPrefetch_send ctxDone1 ptr c s1 (inl s1')
                  /\ WaitChannelForBlockPrefetch_wait ctxDone2 reply s2 out).

Definition CancelPrefetch (ptr : BlockPointer) (s s' : State) : Prop :=
  selects
    [ (true, set_prefetchCancelCh (fun q => q ++ [ptr]) s);
      (shutdownCh s, set_trace (fun t => t ++ [LogSkipCancel ptr]) s) ] s'.

(** [p.shutdownOnce.Do(func() { close(p.shutdownCh) })] *)
Definition Shutdown (s : State) : State := set_shutdownCh true s.

End Prefetcher.

Arguments Ok {_ _} a s.
Arguments Panic {_ _} msg.
Arguments OutOfFuel {_ _}.

(** ** A concrete world, to run the prefetcher in

    Actions are four flags combined pointwise; a backoff is the list of the
    delays it still has to give, and stops when the list is empty; the
    retriever knows a fixed table of blocks. *)
Module Sample.

Record Flags := mkFlags {
  fPrefetch : bool;
  fSync : bool;
  fStopIfFull : bool;
  fDeepSync : bool
}.

#[export] Instance Flags_eq_dec : EqDecision Flags.
Proof. solve_decision. Defined.

Definition combine (a b : Flags) : Flags :=
  mkFlags (fPrefetch a || fPrefetch b) (fSync a || fSync b)
    (fStopIfFull a || fStopIfFull b) (fDeepSync a || fDeepSync b).

Definition isSym (e : DirEntry) : bool :=
  match de_Type e with Sym => true | _ => false end.

Definition isTail (b : Block) : bool :=
  match b with
  | FileBlock IsInd IPtrs => if IsInd then bool_decide (IPtrs = []) else true
  | DirBlock IsInd IPtrs Children =>
      if IsInd then bool_decide (IPtrs = [])
      else forallb isSym (dirEntryMapToDirEntries Children)
  | CommonBlock => false
  end.

Definition newEmpty (b : Block) : Block :=
  match b with
  | FileBlock _ _ => FileBlock false []
  | DirBlock _ _ _ => DirBlock false [] ∅
  | CommonBlock => CommonBlock
  end.

Definition nextBackOff (o : list Z) : option Z * list Z :=
  match o with
  | [] => (None, [])
  | d :: o' => (Some d, o')
  end.

#[export] Instance externals : Externals := {|
  KeyMetadata := unit;
  tlf_ID := unit;
  TlfID := fun _ => tt;
  BlockCacheLifetime := unit;
  TransientEntry := tt;
  DiskBlockCacheType := bool;
  BlockRequestAction := Flags;
  BlockRequestSolo := mkFlags false false false false;
  Combine := combine;
  Prefetch := fun a _ => fPrefetch a;
  Sync := fSync;
  DeepSync := fDeepSync;
  StopIfFull := fStopIfFull;
  CacheType := fSync;
  ChildAction := fun a _ => a;
  SoloAction := fun a => mkFlags false (fSync a) (fStopIfFull a) (fDeepSync a);
  NewEmpty := newEmpty;
  IsTail := isTail;
  defaultOnDemandRequestPriority := 100;
  BackOff := list Z;
  NextBackOff := nextBackOff
|}.

(** The tree of the comment above [run]: a -> {b -> {c, d}, e -> {f, g}}. *)
Definition ptrOf (id : N) : BlockPointer := mkBlockPointer id 0.
Definition dirEntry (id : N) (t : EntryType) (size : N) : DirEntry :=
  mkDirEntry (ptrOf id) t size.

Definition blockA : Block :=
  DirBlock false []
    (<["b" := dirEntry 2 Dir 10]> (<["e" := dirEntry 5 Dir 20]> ∅)).
Definition blockB : Block :=
  DirBlock false []
    (<["c" := dirEntry 3 File 1]> (<["d" := dirEntry 4 File 2]> ∅)).
Definition blockE : Block :=
  DirBlock false []
    (<["f" := dirEntry 6 File 1]> (<["g" := dirEntry 7 File 2]> ∅)).
Definition leaf : Block := FileBlock false [].

Definition blocks (ptr : BlockPointer) : option Block :=
  match ID ptr with
  | 1%N => Some blockA
  | 2%N => Some blockB
  | 5%N => Some blockE
  | 3%N | 4%N | 6%N | 7%N => Some leaf
  | _ => None
  end.

Definition prefetchAction : Flags := mkFlags true false false false.
Definition syncAction : Flags := mkFlags true true false false.

(** A world with room in the disk cache, and one without. *)
Definition envRoom : Env :=
  mkEnv [1000; 2000] true (fun _ _ => Some true)
    (fun _ ptr _ _ => blocks ptr) (fun _ => false).
Definition envFull : Env :=
  mkEnv [1000; 2000] true (fun _ _ => Some false)
    (fun _ ptr _ _ => blocks ptr) (fun _ => false).

Definition requestFor (id : N) (b : Block) (a : Flags) : prefetchRequest :=
  mkPrefetchRequest (ptrOf id) (Some b) (Some tt) 10 tt NoPrefetch a None.

(** States and requests the examples below run from. *)

(** One active record, at location 1. *)
Definition oneRecord (id : N) (p : prefetch) : State :=
  mkState {[1%positive := p]} {[id := 1%positive]} ∅ [] [] [] [] false false
    [].

(** A record as [request] leaves it for a child: not yet triggered. *)
Definition waiting (id : N) (b : Block) (count : Z) : prefetch :=
  mkPrefetch count false (Some (requestFor id b prefetchAction)) ∅ false.

Definition finishedRequestFor (id : N) (b : Block) : prefetchRequest :=
  mkPrefetchRequest (ptrOf id) (Some b) (Some tt) 10 tt FinishedPrefetch
    prefetchAction None.

(** A world whose retriever fails, and one whose backoff has stopped. *)
Definition envDown : Env :=
  mkEnv [1000; 2000] true (fun _ _ => Some true) (fun _ _ _ _ => None)
    (fun _ => false).
Definition envStopped : Env :=
  mkEnv [] true (fun _ _ => Some false) (fun _ ptr _ _ => blocks ptr)
    (fun _ => false).

(** The parent [a] has a fresh record (it was cancelled and is requested
    again); its child [b] is still in the tree and still lists [a]. *)
Definition parentAgain : State :=
  mkState
    (<[1%positive := mkPrefetch 0 true
                       (Some (requestFor 1 blockA prefetchAction)) ∅ false]>
       (<[2%positive := mkPrefetch 1 false
                          (Some (requestFor 2 blockB prefetchAction))
                          {[0%N := {[ptrOf 1]}]} false]> ∅))
    (<[1%N := 1%positive]> (<[2%N := 2%positive]> ∅))
    ∅ [] [] [] [] false false [].

(** The state after the worker handled the given events, from the start. *)
Definition stateAfter (env : Env) (evs : list Event) : State :=
  match runEvents env 10 evs newBlockPrefetcher with
  | Ok _ s => s
  | _ => newBlockPrefetcher
  end.


End Sample.

(** * Properties *)

Section Properties.
Context `{Externals} (env : Env).

(** ** Arithmetic of [int] *)

Lemma wrap_int_small (z : Z) : - 2 ^ 63 <= z < 2 ^ 63 -> wrap_int z = z.
Proof.
  intros Hz. unfold wrap_int.
  rewrite Z.mod_small by lia. lia.
Qed.

Lemma wrap_int_range (z : Z) : - 2 ^ 63 <= wrap_int z < 2 ^ 63.
Proof.
  unfold wrap_int.
  pose proof (Z.mod_pos_bound (z + 2 ^ 63) (2 ^ 64) ltac:(lia)). lia.
Qed.

Lemma wrap_int_0 : wrap_int 0 = 0.
Proof. reflexivity. Qed.

(** ** Running the monad *)

Lemma bind_Ok {A B} (m : M A) (f : A -> M B) (s s' : State) (a : A) :
  m s = Ok a s' -> (m ≫= f) s = f a s'.
Proof. intros Hm. unfold mbind, M_bind. by rewrite Hm. Qed.

Lemma bind_Panic {A B} (m : M A) (f : A -> M B) (s : State) (msg : string) :
  m s = Panic msg -> (m ≫= f) s = Panic msg.
Proof. intros Hm. unfold mbind, M_bind. by rewrite Hm. Qed.

Lemma bind_inv_Ok {A B} (m : M A) (f : A -> M B) (s s' : State) (b : B) :
  (m ≫= f) s = Ok b s' -> exists a s1, m s = Ok a s1 /\ f a s1 = Ok b s'.
Proof.
  unfold mbind, M_bind. destruct (m s) as [a s1| |]; [eauto|done|done].
Qed.

Lemma clearRescheduleState_eq (blockID : kbfsblock_ID) (s : State) :
  clearRescheduleState blockID s =
  Ok tt
    match rescheduled s !! blockID with
    | Some rp =>
        match timer rp with
        | Some _ =>
            set_rescheduled
              <[blockID := mkRescheduledPrefetch (off rp) None]>
              (set_trace (fun t => t ++ [EffTimerStop blockID]) s)
        | None => s
        end
    | None => s
    end.
Proof.
  unfold clearRescheduleState, mbind, M_bind, get. simpl.
  destruct (rescheduled s !! blockID) as [rp|]; [|done].
  destruct (timer rp); done.
Qed.

Lemma bind_eq {A B} (m : M A) (f : A -> M B) (s : State) :
  (m ≫= f) s = match m s with
               | Ok a s' => f a s'
               | Panic msg => Panic msg
               | OutOfFuel => OutOfFuel
               end.
Proof. reflexivity. Qed.

Lemma modify_eq (f : State -> State) (s : State) : modify f s = Ok tt (f s).
Proof. reflexivity. Qed.

Lemma get_eq (s : State) : get s = Ok s s.
Proof. reflexivity. Qed.

Lemma mret_eq {A} (a : A) (s : State) : (mret a : M A) s = Ok a s.
Proof. reflexivity. Qed.

Lemma emit_eq (e : Effect) (s : State) :
  emit e s = Ok tt (set_trace (fun t => t ++ [e]) s).
Proof. reflexivity. Qed.

Lemma getPrefetch_eq (l : loc) (s : State) :
  getPrefetch l s = Ok (heap s !!! l) s.
Proof. reflexivity. Qed.

Lemma panic_eq {A} (msg : string) (s : State) : @panic _ A msg s = Panic msg.
Proof. reflexivity. Qed.

Lemma modifyPrefetch_eq (l : loc) (g : prefetch -> prefetch) (s : State) :
  modifyPrefetch l g s = Ok tt (set_heap <[l := g (heap s !!! l)]> s).
Proof. reflexivity. Qed.

Lemma Close_eq (l : loc) (s : State) :
  Close l s =
  if waitChClosed (heap s !!! l) then Panic "close of closed channel"
  else Ok tt (set_trace (fun t => t ++ [EffClose l])
                (set_heap <[l := set_waitChClosed true (heap s !!! l)]> s)).
Proof.
  unfold Close. rewrite bind_eq, getPrefetch_eq. cbv beta iota.
  destruct (waitChClosed (heap s !!! l)); [done|].
  by rewrite bind_eq, modifyPrefetch_eq.
Qed.

Lemma retrieverRequestSync_eq (priority : Z) (kmd : option KeyMetadata)
  (ptr : BlockPointer) (b : Block) (lifetime : BlockCacheLifetime)
  (action : BlockRequestAction) (s : State) :
  retrieverRequestSync env priority kmd ptr b lifetime action s =
  Ok (retrieverRequest env (trace s) ptr action b)
    (set_trace (fun t => t ++ [EffRequest priority kmd ptr b lifetime action])
       s).
Proof. reflexivity. Qed.

(** Projections of updated states. *)
Ltac sproj :=
  cbn [heap prefetches rescheduled prefetchRequestCh prefetchCancelCh
       prefetchRescheduleCh inFlightFetches shutdownCh isShuttingDown trace
       set_heap set_prefetches set_rescheduled set_prefetchRequestCh
       set_prefetchCancelCh set_prefetchRescheduleCh set_inFlightFetches
       set_shutdownCh set_isShuttingDown set_trace
       subtreeBlockCount subtreeTriggered req parents waitChClosed
       set_subtreeBlockCount set_subtreeTriggered set_req set_parents
       set_waitChClosed] in *.

(** One step of a computation: expose the head of a bind, or evaluate a
    primitive applied to a state. *)
Ltac mprim :=
  first [ rewrite modify_eq | rewrite get_eq | rewrite mret_eq
        | rewrite emit_eq | rewrite getPrefetch_eq
        | rewrite modifyPrefetch_eq | rewrite clearRescheduleState_eq
        | rewrite retrieverRequestSync_eq | rewrite panic_eq ];
  cbv beta iota.
Ltac mstep := first [ rewrite bind_eq | mprim ].
Ltac mrun := repeat mstep.

(** ** [completePrefetch] *)

(** C1 (as amended).  [completePrefetch numBlocks] applied to a record that
    carries a request with a block shell and key metadata and whose wait
    channel is still open: [numBlocks] is subtracted from
    [subtreeBlockCount] (in [int] arithmetic); a negative result aborts; a
    positive result changes nothing else; and a result of exactly 0 removes
    the block from [prefetches], stops its reschedule timer and deletes its
    [rescheduled] entry, re-issues a solo fetch and closes the wait channel.
    The block is put in the caches with [FinishedPrefetch] only when that
    solo fetch succeeds. *)
Theorem completePrefetch_spec (numBlocks : Z) (blockID : kbfsblock_ID)
  (pp : loc) (s : State) (r : prefetchRequest) (b : Block) (k : KeyMetadata) :
  let p := heap s !!! pp in
  let c := wrap_int (subtreeBlockCount p - numBlocks) in
  req p = Some r -> req_block r = Some b -> req_kmd r = Some k ->
  waitChClosed p = false ->
  (- 2 ^ 63 <= subtreeBlockCount p - numBlocks < 2 ^ 63 ->
   c = subtreeBlockCount p - numBlocks)
  /\ (c < 0 ->
      completePrefetch env numBlocks blockID pp s
      = Panic "completePrefetch overstepped its bounds")
  /\ (0 < c ->
      completePrefetch env numBlocks blockID pp s
      = Ok tt (set_heap <[pp := set_subtreeBlockCount c p]> s))
  /\ (c = 0 ->
      exists s',
        completePrefetch env numBlocks blockID pp s = Ok tt s'
        /\ prefetches s' = delete blockID (prefetches s)
        /\ rescheduled s' = delete blockID (rescheduled s)
        /\ heap s'
           = <[pp := set_waitChClosed true (set_subtreeBlockCount 0 p)]>
               (heap s)
        /\ let stop := match pendingTimer s blockID with
                       | Some _ => [EffTimerStop blockID]
                       | None => []
                       end in
           let fetch := EffRequest defaultOnDemandRequestPriority (Some k)
                          (req_ptr r) (NewEmpty b) (req_lifetime r)
                          BlockRequestSolo in
           trace s'
           = trace s ++ stop ++ [fetch]
             ++ match retrieverRequest env (trace s ++ stop) (req_ptr r)
                        BlockRequestSolo (NewEmpty b) with
                | Some b' =>
                    [EffPutInCaches (req_ptr r) (TlfID k) b' (req_lifetime r)
                       FinishedPrefetch]
                | None => []
                end
             ++ [EffClose pp]).
Proof.
  intros p c Hreq Hblock Hkmd Hopen.
  split; [intros Hr; by apply wrap_int_small|].
  unfold completePrefetch.
  do 4 mstep. sproj.
  rewrite lookup_total_insert_eq. fold p. fold c. sproj. rewrite Hreq.
  split; [|split].
  - intros Hc. apply Z.ltb_lt in Hc. by rewrite Hc.
  - intros Hc.
    assert ((c <? 0) = false) as -> by lia.
    assert ((c =? 0) = false) as -> by lia. done.
  - intros Hc. rewrite Hc. cbn [Z.ltb Z.eqb Z.compare].
    mrun. rewrite Hblock. unfold blockNewEmpty.
    mrun. rewrite Hkmd. unfold kmdTlfID.
    set (s1 := set_rescheduled _ _).
    assert (heap s1 = <[pp := set_subtreeBlockCount 0 p]> (heap s)) as Hh1.
    { subst s1. sproj. by repeat case_match. }
    assert (prefetches s1 = delete blockID (prefetches s)) as Hp1.
    { subst s1. sproj. by repeat case_match. }
    assert (rescheduled s1 = delete blockID (rescheduled s)) as Hr1.
    { subst s1. sproj. repeat case_match; sproj; try done.
      by rewrite delete_insert_eq. }
    assert (trace s1 = trace s ++ match pendingTimer s blockID with
                                  | Some _ => [EffTimerStop blockID]
                                  | None => []
                                  end) as Ht1.
    { subst s1. unfold pendingTimer. sproj.
      destruct (rescheduled s !! blockID) as [rp|]; cbn;
        [destruct (timer rp); cbn|]; sproj; by rewrite ?app_nil_r. }
    rewrite Ht1.
    destruct (retrieverRequest env _ _ _ _) as [b'|].
    + mrun. rewrite Close_eq. sproj. rewrite Hh1.
      rewrite lookup_total_insert_eq. sproj. rewrite Hopen.
      eexists; split; [reflexivity|]. sproj.
      rewrite Hh1, Hp1, Hr1, Ht1, insert_insert_eq, <- !app_assoc. done.
    + rewrite Close_eq. sproj. rewrite Hh1.
      rewrite lookup_total_insert_eq. sproj. rewrite Hopen.
      eexists; split; [reflexivity|]. sproj.
      rewrite Hh1, Hp1, Hr1, Ht1, insert_insert_eq, <- !app_assoc. done.
Qed.

(** ** [rescheduleTopBlock] when the backoff has stopped *)

(** C10.  [rescheduleTopBlock] on a top-level record (no parents) whose
    backoff answers [Stop]: the record is removed from [prefetches] and
    closed, the block has a [rescheduled] entry whose timer is nil, no timer
    is armed and nothing is put on the request channel. *)
Theorem rescheduleTopBlock_backoff_stop (blockID : kbfsblock_ID) (pp : loc)
  (s : State) (r : prefetchRequest) (o o' : BackOff) :
  parents (heap s !!! pp) = ∅ ->
  waitChClosed (heap s !!! pp) = false ->
  req (heap s !!! pp) = Some r ->
  match rescheduled s !! blockID with
  | Some rp => timer rp = None /\ off rp = o
  | None => makeNewBackOff env = o
  end ->
  NextBackOff o = (None, o') ->
  exists s',
    rescheduleTopBlock env blockID pp s = Ok tt s'
    /\ prefetches s' = delete blockID (prefetches s)
    /\ waitChClosed (heap s' !!! pp) = true
    /\ rescheduled s' = <[blockID := mkRescheduledPrefetch o' None]>
                          (rescheduled s)
    /\ pendingTimer s' blockID = None
    /\ prefetchRequestCh s' = prefetchRequestCh s
    /\ trace s' = trace s ++ [EffClose pp].
Proof.
  intros Hpar Hopen Hreq Hrp Hnext.
  unfold rescheduleTopBlock.
  mrun. rewrite Hpar.
  destruct (decide (size (∅ : gmap N (gset BlockPointer)) ≠ 0%nat))
    as [Hne|_]; [by rewrite map_size_empty in Hne|].
  mrun. rewrite Close_eq. sproj. rewrite Hopen. mrun. sproj.
  destruct (rescheduled s !! blockID) as [rp|] eqn:Hlook.
  - destruct Hrp as [Htimer Hoff].
    mrun. rewrite Htimer. mrun. sproj.
    rewrite lookup_total_insert_eq. sproj. rewrite Hreq.
    rewrite Hoff, Hnext. mrun. sproj.
    eexists; split; [reflexivity|]. sproj.
    rewrite lookup_total_insert_eq. unfold pendingTimer. sproj.
    by rewrite lookup_insert_eq.
  - cbv zeta. mrun. cbn [timer off]. mrun. sproj.
    rewrite lookup_total_insert_eq. sproj. rewrite Hreq.
    rewrite Hrp, Hnext. mrun. sproj.
    eexists; split; [reflexivity|]. sproj.
    rewrite lookup_total_insert_eq. unfold pendingTimer. sproj.
    by rewrite lookup_insert_eq, insert_insert_eq.
Qed.

(** ** [stopIfNeeded] *)

Lemma reschedulePrefetch_eq (r : prefetchRequest) (s : State) :
  reschedulePrefetch env r s =
  Ok tt (if shutdownCh s && selectShutdown env (trace s)
         then set_trace (fun t => t ++ [LogSkipReschedule (ID (req_ptr r))]) s
         else set_prefetchRescheduleCh (fun q => q ++ [r]) s).
Proof.
  unfold reschedulePrefetch. mrun.
  by destruct (shutdownCh s && selectShutdown env (trace s)).
Qed.

(** C6.  The cache-pressure gate.  With no room in the disk cache for the
    action's cache type: a [Sync] action hands the request to
    [reschedulePrefetch] (which puts it on the reschedule channel unless the
    prefetcher is shut down) and stops; otherwise an action that stops when
    full stops, with nothing rescheduled.  In every other case (room, no disk
    cache, an error from the space query, or an action that neither syncs nor
    stops when full) handling goes on and nothing changes. *)
Theorem stopIfNeeded_spec (r : prefetchRequest) (s : State) :
  let noRoom :=
    hasDiskBlockCache env
    && bool_decide (DoesCacheHaveSpace env (trace s) (CacheType (req_action r))
                    = Some false) in
  (noRoom = true -> Sync (req_action r) = true ->
   exists s',
     reschedulePrefetch env r s = Ok tt s'
     /\ stopIfNeeded env r s = Ok true s'
     /\ (shutdownCh s = false ->
         s' = set_prefetchRescheduleCh (fun q => q ++ [r]) s))
  /\ (noRoom = true -> Sync (req_action r) = false ->
      StopIfFull (req_action r) = true ->
      stopIfNeeded env r s = Ok true s)
  /\ (noRoom = false
      \/ (Sync (req_action r) = false /\ StopIfFull (req_action r) = false) ->
      stopIfNeeded env r s = Ok false s).
Proof.
  intros noRoom. subst noRoom. unfold stopIfNeeded.
  destruct (hasDiskBlockCache env); cbn [negb andb].
  2: { repeat split; try done. }
  mrun.
  destruct (DoesCacheHaveSpace env (trace s) (CacheType (req_action r)))
    as [[|]|] eqn:Hspace.
  - rewrite bool_decide_eq_false_2 by done. repeat split; done.
  - rewrite bool_decide_eq_true_2 by done.
    split; [|split].
    + intros _ Hsync. rewrite Hsync.
      rewrite bind_eq, reschedulePrefetch_eq. cbv beta iota. mrun.
      eexists; split; [reflexivity|]. split; [reflexivity|].
      intros Hshut. by rewrite Hshut.
    + intros _ Hsync Hstop. by rewrite Hsync, Hstop.
    + intros [Hno|[Hsync Hstop]]; [done|]. by rewrite Hsync, Hstop.
  - rewrite bool_decide_eq_false_2 by done. repeat split; done.
Qed.

(** Updated states, written out field by field. *)
Ltac sflat :=
  unfold set_heap, set_prefetches, set_rescheduled, set_prefetchRequestCh,
    set_prefetchCancelCh, set_prefetchRescheduleCh, set_inFlightFetches,
    set_shutdownCh, set_isShuttingDown, set_trace in *;
  cbn [heap prefetches rescheduled prefetchRequestCh prefetchCancelCh
       prefetchRescheduleCh inFlightFetches shutdownCh isShuttingDown trace
       subtreeBlockCount subtreeTriggered req parents waitChClosed
       set_subtreeBlockCount set_subtreeTriggered set_req set_parents
       set_waitChClosed req_ptr req_block req_kmd req_priority req_lifetime
       req_prefetchStatus req_action req_sendCh set_req_action] in *.

(** ** The abort branches *)

Lemma decrementPrefetch_eq (blockID : kbfsblock_ID) (pp : loc) (s : State) :
  decrementPrefetch blockID pp s =
  let c := wrap_int (subtreeBlockCount (heap s !!! pp) - 1) in
  if c <? 0 then Panic "decrementPrefetch overstepped its bounds"
  else Ok tt (set_heap <[pp := set_subtreeBlockCount c (heap s !!! pp)]> s).
Proof.
  unfold decrementPrefetch. mrun. sproj.
  rewrite lookup_total_insert_eq. sproj.
  by destruct (_ <? 0).
Qed.

(** What [request] does once the child is known to the prefetcher: the
    parent test and the edge. *)
Definition requestEdge (ptr parentPtr : BlockPointer) (isParentNew : bool)
  (idsSeen : gset kbfsblock_ID) (pre : loc) : M (Z * gset kbfsblock_ID) :=
  s ← get;
  match prefetches s !! ID parentPtr with
  | None =>
      panic ("prefetcher doesn't know about parent block when trying "
             +:+ "to record parent-child relationship")
  | Some _ =>
      pp ← getPrefetch pre;
      if negb (bool_decide (parentPtr ∈ bucket pp (RefNonce ptr)))
         || isParentNew
      then
        modifyPrefetch pre
          (fun pp =>
             set_parents
               (<[RefNonce ptr := bucket pp (RefNonce ptr) ∪ {[parentPtr]}]>
                  (parents pp)) pp);;
        mret (subtreeBlockCount pp, idsSeen)
      else mret (0, idsSeen)
  end.

(** The state [request] reaches before the parent test: a child that is not
    active gets a record with count 1 and its fetch is issued; an active
    child gets a new fetch only when the action changes. *)
Definition childReady (priority : Z) (kmd : option KeyMetadata)
  (ptr : BlockPointer) (block : Block) (lifetime : BlockCacheLifetime)
  (action : BlockRequestAction) (s : State) : loc * State :=
  let fetch := EffRequest priority kmd ptr block lifetime action in
  let issue (s : State) :=
    set_inFlightFetches (fun q => q ++ [fetch])
      (set_trace (fun t => t ++ [fetch]) s) in
  match prefetches s !! ID ptr with
  | None =>
      let pre := fresh (dom (heap s)) in
      let r := mkPrefetchRequest ptr (Some block) kmd priority lifetime
                 NoPrefetch (Combine action action) None in
      (pre, issue (set_heap <[pre := mkPrefetch 1 false (Some r) ∅ false]>
                     (set_prefetches <[ID ptr := pre]> s)))
  | Some pre =>
      match req (heap s !!! pre) with
      | None => (pre, s)
      | Some r =>
          let newAction := Combine action (req_action r) in
          if bool_decide (req_action r = newAction) then (pre, s)
          else
            (pre, issue (set_heap
                           <[pre := set_req (Some (set_req_action newAction r))
                                      (heap s !!! pre)]> s))
      end
  end.

Lemma request_eq (priority : Z) (kmd : option KeyMetadata)
  (ptr : BlockPointer) (block : Block) (lifetime : BlockCacheLifetime)
  (parentPtr : BlockPointer) (isParentNew : bool)
  (action : BlockRequestAction) (idsSeen : gset kbfsblock_ID) (s : State) :
  ID ptr ∉ idsSeen ->
  (forall pre, prefetches s !! ID ptr = Some pre ->
               is_Some (req (heap s !!! pre))) ->
  request priority kmd ptr block lifetime parentPtr isParentNew action idsSeen
    s
  = let '(pre, s1) := childReady priority kmd ptr block lifetime action s in
    requestEdge ptr parentPtr isParentNew (idsSeen ∪ {[ID ptr]}) pre s1.
Proof.
  intros Hseen Hreq. unfold request, childReady.
  destruct (decide (ID ptr ∈ idsSeen)) as [|_]; [done|].
  cbv zeta. mrun.
  destruct (prefetches s !! ID ptr) as [pre|] eqn:Hpre.
  - destruct (Hreq pre eq_refl) as [r Hr].
    rewrite bool_decide_eq_true_2 by eauto. cbn [negb orb].
    mrun. rewrite Hr.
    destruct (bool_decide (req_action r = Combine action (req_action r)));
      cbn [negb]; mrun; reflexivity.
  - rewrite bool_decide_eq_false_2 by (intros [? ?]; done). cbn [negb orb].
    unfold newPrefetch at 1. mrun. sproj.
    rewrite lookup_total_insert_eq. sproj. mrun. sproj.
    rewrite lookup_total_insert_eq. sproj.
    unfold requestEdge. mrun. sflat. rewrite insert_insert_eq. reflexivity.
Qed.

Lemma requestEdge_eq (ptr parentPtr : BlockPointer) (isParentNew : bool)
  (idsSeen : gset kbfsblock_ID) (pre : loc) (s : State) :
  requestEdge ptr parentPtr isParentNew idsSeen pre s =
  match prefetches s !! ID parentPtr with
  | None =>
      Panic ("prefetcher doesn't know about parent block when trying "
             +:+ "to record parent-child relationship")
  | Some _ =>
      let pp := heap s !!! pre in
      if negb (bool_decide (parentPtr ∈ bucket pp (RefNonce ptr)))
         || isParentNew
      then
        Ok (subtreeBlockCount pp, idsSeen)
          (set_heap
             <[pre := set_parents
                        (<[RefNonce ptr :=
                             bucket pp (RefNonce ptr) ∪ {[parentPtr]}]>
                           (parents pp)) pp]> s)
      else Ok (0, idsSeen) s
  end.
Proof.
  unfold requestEdge. mrun.
  destruct (prefetches s !! ID parentPtr); [|done].
  mrun. cbv zeta. destruct (_ || _); mrun; reflexivity.
Qed.

Lemma childReady_prefetches (priority : Z) (kmd : option KeyMetadata)
  (ptr : BlockPointer) (block : Block) (lifetime : BlockCacheLifetime)
  (action : BlockRequestAction) (s : State) :
  let '(pre, s1) := childReady priority kmd ptr block lifetime action s in
  prefetches s1 = <[ID ptr := pre]> (prefetches s)
  /\ subtreeBlockCount (heap s1 !!! pre)
     = match prefetches s !! ID ptr with
       | Some l => subtreeBlockCount (heap s !!! l)
       | None => 1
       end
  /\ parents (heap s1 !!! pre)
     = match prefetches s !! ID ptr with
       | Some l => parents (heap s !!! l)
       | None => ∅
       end.
Proof.
  unfold childReady. cbv zeta.
  destruct (prefetches s !! ID ptr) as [pre|] eqn:Hpre.
  - destruct (req (heap s !!! pre)) as [r|].
    + case_bool_decide; sproj; rewrite ?lookup_total_insert_eq;
        by rewrite insert_id.
    + by rewrite insert_id.
  - sproj. by rewrite lookup_total_insert_eq.
Qed.

Lemma request_edge_recorded (priority : Z) (kmd : option KeyMetadata)
  (ptr : BlockPointer) (block : Block) (lifetime : BlockCacheLifetime)
  (parentPtr : BlockPointer) (isParentNew : bool)
  (action : BlockRequestAction) (idsSeen : gset kbfsblock_ID) (s : State) :
  ID ptr ∉ idsSeen ->
  is_Some (prefetches s !! ID parentPtr) ->
  (forall pre, prefetches s !! ID ptr = Some pre ->
               is_Some (req (heap s !!! pre))) ->
  exists pre s' n,
    request priority kmd ptr block lifetime parentPtr isParentNew action
      idsSeen s = Ok (n, idsSeen ∪ {[ID ptr]}) s'
    /\ prefetches s' !! ID ptr = Some pre
    /\ parentPtr ∈ bucket (heap s' !!! pre) (RefNonce ptr)
    /\ let edgeKnown :=
         match prefetches s !! ID ptr with
         | Some l =>
             bool_decide (parentPtr ∈ bucket (heap s !!! l) (RefNonce ptr))
         | None => false
         end in
       n = if negb edgeKnown || isParentNew
           then subtreeBlockCount (heap s' !!! pre) else 0.
Proof.
  intros Hseen [lpar Hpar] Hreq.
  rewrite request_eq by done.
  pose proof (childReady_prefetches priority kmd ptr block lifetime action s)
    as Hready.
  destruct (childReady priority kmd ptr block lifetime action s)
    as [pre s1].
  destruct Hready as (Hpref & Hcount & Hparents).
  rewrite requestEdge_eq. rewrite Hpref.
  assert (is_Some (<[ID ptr := pre]> (prefetches s) !! ID parentPtr))
    as [l' ->].
  { rewrite lookup_insert. case_decide; eauto. }
  cbv zeta.
  assert (bucket (heap s1 !!! pre) (RefNonce ptr)
          = match prefetches s !! ID ptr with
            | Some l => bucket (heap s !!! l) (RefNonce ptr)
            | None => ∅
            end) as Hbucket.
  { unfold bucket. rewrite Hparents.
    by destruct (prefetches s !! ID ptr). }
  assert (bool_decide (parentPtr ∈ bucket (heap s1 !!! pre) (RefNonce ptr))
          = match prefetches s !! ID ptr with
            | Some l =>
                bool_decide
                  (parentPtr ∈ bucket (heap s !!! l) (RefNonce ptr))
            | None => false
            end) as Hknown.
  { rewrite Hbucket. destruct (prefetches s !! ID ptr); [done|].
    apply bool_decide_eq_false_2. set_solver. }
  rewrite <- Hknown.
  destruct (negb _ || isParentNew) eqn:Hnew.
  + eexists pre, _, _. split; [reflexivity|]. sproj.
    rewrite Hpref, lookup_insert_eq, lookup_total_insert_eq.
    split; [done|]. split; [|done].
    unfold bucket at 1. sproj. rewrite lookup_insert_eq. cbn. set_solver.
  + eexists pre, _, _. split; [reflexivity|].
    rewrite Hpref, lookup_insert_eq. split; [done|]. split; [|done].
    apply orb_false_iff in Hnew as [Hnew _].
    apply negb_false_iff, bool_decide_eq_true in Hnew. done.
Qed.

(** C4 (as amended).  A child whose ID was already seen in this enumeration
    contributes 0 and nothing is recorded.  Otherwise, with the parent active
    (and the child's record, if it has one, carrying a request), the edge is
    recorded under [parents[ptr.RefNonce]] of the child, and the call returns
    the child's [subtreeBlockCount] when the edge is new or when the parent's
    record is new ([isParentNew]), and 0 only when neither holds. *)
Theorem request_spec (priority : Z) (kmd : option KeyMetadata)
  (ptr : BlockPointer) (block : Block) (lifetime : BlockCacheLifetime)
  (parentPtr : BlockPointer) (isParentNew : bool)
  (action : BlockRequestAction) (idsSeen : gset kbfsblock_ID) (s : State) :
  (ID ptr ∈ idsSeen ->
   request priority kmd ptr block lifetime parentPtr isParentNew action
     idsSeen s = Ok (0, idsSeen) s)
  /\ (ID ptr ∉ idsSeen ->
      is_Some (prefetches s !! ID parentPtr) ->
      (forall pre, prefetches s !! ID ptr = Some pre ->
                   is_Some (req (heap s !!! pre))) ->
      exists pre s' n,
        request priority kmd ptr block lifetime parentPtr isParentNew action
          idsSeen s = Ok (n, idsSeen ∪ {[ID ptr]}) s'
        /\ prefetches s' !! ID ptr = Some pre
        /\ parentPtr ∈ bucket (heap s' !!! pre) (RefNonce ptr)
        /\ let edgeKnown :=
             match prefetches s !! ID ptr with
             | Some l =>
                 bool_decide (parentPtr ∈ bucket (heap s !!! l) (RefNonce ptr))
             | None => false
             end in
           n = if negb edgeKnown || isParentNew
               then subtreeBlockCount (heap s' !!! pre) else 0).
Proof.
  split.
  - intros Hseen. unfold request.
    by destruct (decide (ID ptr ∈ idsSeen)).
  - apply request_edge_recorded.
Qed.

(** C7 (as amended).  A decrement whose result is negative aborts, in
    [decrementPrefetch] and in [completePrefetch]; registering an edge to a
    parent that is not in [prefetches] aborts.  A count of 0 is within the
    invariant and still aborts when decremented: the abort branches are
    excluded when the count is at least the amount subtracted, and the parent
    test passes when the parent is active. *)
Theorem abort_branches (s : State) (blockID : kbfsblock_ID) (pp : loc)
  (numBlocks priority : Z) (kmd : option KeyMetadata) (ptr : BlockPointer)
  (block : Block) (lifetime : BlockCacheLifetime) (parentPtr : BlockPointer)
  (isParentNew : bool) (action : BlockRequestAction)
  (idsSeen : gset kbfsblock_ID) :
  let count := subtreeBlockCount (heap s !!! pp) in
  let knownChild :=
    forall pre, prefetches s !! ID ptr = Some pre ->
                is_Some (req (heap s !!! pre)) in
  (wrap_int (count - 1) < 0 ->
   decrementPrefetch blockID pp s
   = Panic "decrementPrefetch overstepped its bounds")
  /\ (wrap_int (count - numBlocks) < 0 ->
      completePrefetch env numBlocks blockID pp s
      = Panic "completePrefetch overstepped its bounds")
  /\ (ID ptr ∉ idsSeen -> knownChild ->
      prefetches s !! ID parentPtr = None -> ID parentPtr ≠ ID ptr ->
      request priority kmd ptr block lifetime parentPtr isParentNew action
        idsSeen s
      = Panic ("prefetcher doesn't know about parent block when trying "
               +:+ "to record parent-child relationship"))
  /\ (1 <= count < 2 ^ 63 ->
      decrementPrefetch blockID pp s
      = Ok tt (set_heap
                 <[pp := set_subtreeBlockCount (count - 1) (heap s !!! pp)]>
                 s))
  /\ (0 <= numBlocks <= count -> count < 2 ^ 63 ->
      completePrefetch env numBlocks blockID pp s
      ≠ Panic "completePrefetch overstepped its bounds")
  /\ (ID ptr ∉ idsSeen -> knownChild ->
      is_Some (prefetches s !! ID parentPtr) ->
      exists res s',
        request priority kmd ptr block lifetime parentPtr isParentNew action
          idsSeen s = Ok res s').
Proof.
  intros count knownChild.
  split; [|split; [|split; [|split; [|split]]]].
  - intros Hneg. rewrite decrementPrefetch_eq. cbv zeta. fold count.
    apply Z.ltb_lt in Hneg. by rewrite Hneg.
  - intros Hneg. unfold completePrefetch. do 4 mstep. sproj.
    rewrite lookup_total_insert_eq. sproj. fold count.
    apply Z.ltb_lt in Hneg. by rewrite Hneg.
  - intros Hseen Hknown Hpar Hne.
    rewrite request_eq by done.
    pose proof (childReady_prefetches priority kmd ptr block lifetime action s)
      as Hready.
    destruct (childReady priority kmd ptr block lifetime action s)
      as [pre s1].
    destruct Hready as (Hpref & _).
    rewrite requestEdge_eq, Hpref, lookup_insert_ne, Hpar by done. done.
  - intros Hcount. rewrite decrementPrefetch_eq. cbv zeta. fold count.
    rewrite wrap_int_small by lia.
    assert ((count - 1 <? 0) = false) as -> by lia. done.
  - intros Hn Hcount. unfold completePrefetch. do 4 mstep. sproj.
    rewrite lookup_total_insert_eq. sproj. fold count.
    rewrite wrap_int_small by lia.
    assert ((count - numBlocks <? 0) = false) as -> by lia.
    destruct (req (heap s !!! pp)) as [r|]; [|done].
    destruct (count - numBlocks =? 0); [|done].
    mrun. destruct (req_block r) as [b|]; [|done].
    unfold blockNewEmpty. mrun.
    destruct (retrieverRequest env _ _ _ _).
    + destruct (req_kmd r); [|done]. unfold kmdTlfID. mrun.
      rewrite Close_eq. by destruct (waitChClosed _).
    + rewrite Close_eq. by destruct (waitChClosed _).
  - intros Hseen Hknown Hpar.
    destruct (request_edge_recorded priority kmd ptr block lifetime
                parentPtr isParentNew action idsSeen s Hseen Hpar Hknown)
      as (pre & s' & n & Hres & _).
    eauto.
Qed.

(** ** The wait-channel request *)

(** C3 (as amended).  A request with [sendCh] set is answered with the wait
    channel of the block's record when the block is active and with the
    closed channel when it is not, and nothing after that runs; [prefetches],
    the keys and backoffs of [rescheduled] and the channels are unchanged.
    What precedes the [sendCh] test in the source still happens: an active
    record with no request takes this one, and the reschedule state of the
    block is cleared (its timer, when armed, is stopped and set to nil). *)
Theorem runRequest_wait_channel (fuel : nat) (r : prefetchRequest) (ch : chan)
  (s : State) :
  req_sendCh r = Some ch ->
  let blockID := ID (req_ptr r) in
  exists s',
    runRequest env fuel r s = Ok tt s'
    /\ prefetches s' = prefetches s
    /\ (forall id, id ≠ blockID -> rescheduled s' !! id = rescheduled s !! id)
    /\ rescheduled s' !! blockID
       = (fun rp => mkRescheduledPrefetch (off rp) None)
           <$> rescheduled s !! blockID
    /\ heap s'
       = match prefetches s !! blockID with
         | Some pre =>
             match req (heap s !!! pre) with
             | None => <[pre := set_req (Some r) (heap s !!! pre)]> (heap s)
             | Some _ => heap s
             end
         | None => heap s
         end
    /\ trace s'
       = trace s
         ++ match pendingTimer s blockID with
            | Some _ => [EffTimerStop blockID]
            | None => []
            end
         ++ [EffSend ch match prefetches s !! blockID with
                        | Some pre => waitCh pre
                        | None => closedCh
                        end]
    /\ prefetchRequestCh s' = prefetchRequestCh s
    /\ prefetchCancelCh s' = prefetchCancelCh s
    /\ prefetchRescheduleCh s' = prefetchRescheduleCh s
    /\ inFlightFetches s' = inFlightFetches s.
Proof.
  intros Hch blockID. unfold runRequest. mrun. fold blockID.
  set (s1 := match prefetches s !! blockID with
             | Some pre =>
                 match req (heap s !!! pre) with
                 | None =>
                     set_heap <[pre := set_req (Some r) (heap s !!! pre)]> s
                 | Some _ => s
                 end
             | None => s
             end).
  assert (exists aliased : bool,
            match prefetches s !! blockID with
            | Some pre =>
                pp ← getPrefetch pre;
                match req pp with
                | None => modifyPrefetch pre (set_req (Some r));; mret true
                | Some _ => mret false
                end
            | None => mret false
            end s = Ok aliased s1) as [aliased ->].
  { subst s1. destruct (prefetches s !! blockID) as [pre|]; [|by eexists].
    mrun. destruct (req (heap s !!! pre)); mrun; by eexists. }
  mrun. rewrite Hch. mrun.
  assert (rescheduled s1 = rescheduled s) as Hr1
    by (subst s1; by repeat case_match).
  assert (prefetches s1 = prefetches s) as Hp1
    by (subst s1; by repeat case_match).
  assert (trace s1 = trace s) as Ht1 by (subst s1; by repeat case_match).
  eexists; split; [reflexivity|].
  unfold pendingTimer. rewrite Hr1.
  destruct (rescheduled s !! blockID) as [rp|] eqn:Hrp; cbn;
    [destruct (timer rp) as [tm|] eqn:Htm; cbn|]; sproj;
    rewrite ?Hr1, ?Hp1, ?Ht1.
  - repeat split; try (subst s1; by repeat case_match).
    + intros id Hid. by rewrite lookup_insert_ne.
    + by rewrite lookup_insert_eq.
    + by rewrite <- app_assoc.
  - repeat split; try (subst s1; by repeat case_match).
    rewrite Hrp. cbn. destruct rp; cbn in *; by subst.
  - repeat split; try (subst s1; by repeat case_match).
Qed.

(** ** The public methods after [Shutdown] *)

Lemma selects_cons {A} (b : bool) (a a' : A) (cases : list (bool * A)) :
  selects ((b, a) :: cases) a' <-> (b = true /\ a = a') \/ selects cases a'.
Proof.
  unfold selects. rewrite elem_of_cons. split.
  - intros [Heq|Hin]; [left|by right]. by inversion Heq.
  - intros [[-> ->]|Hin]; [by left|by right].
Qed.

Lemma selects_nil {A} (a : A) : selects [] a <-> False.
Proof. unfold selects. by rewrite elem_of_nil. Qed.

(** C9 (as amended).  Once [shutdownCh] is closed, the shutdown case of each
    [select] is ready, so [WaitChannelForBlockPrefetch] can always return
    [Already shut down] and [CancelPrefetch] can always return with only the
    log warning and nothing enqueued.  [select] may run another ready case
    instead: the call returns [ctx.Err()] when the context is done, or the
    worker's reply when it is there, and [CancelPrefetch] may still enqueue.
    With a live context and no reply, [Already shut down] is the only
    answer. *)
Theorem after_shutdown (ptr : BlockPointer) (c : chan) (ctxDone1 : bool)
  (s1 : State) (reply : option WaitSignal) (ctxDone2 : bool) (s2 : State) :
  shutdownCh s1 = true -> shutdownCh s2 = true ->
  let alreadyShutDown : WaitSignal + error :=
    inr (errorsNew "Already shut down") in
  let skipped := set_trace (fun t => t ++ [LogSkipCancel ptr]) s1 in
  WaitChannelForBlockPrefetch ptr c ctxDone1 s1 reply ctxDone2 s2
    alreadyShutDown
  /\ (forall out,
        WaitChannelForBlockPrefetch ptr c ctxDone1 s1 reply ctxDone2 s2 out ->
        out = alreadyShutDown
        \/ (out = inr ctxErr /\ (ctxDone1 = true \/ ctxDone2 = true))
        \/ (exists w, reply = Some w /\ out = inl w))
  /\ CancelPrefetch ptr s1 skipped
  /\ prefetchCancelCh skipped = prefetchCancelCh s1
  /\ (forall s', CancelPrefetch ptr s1 s' ->
                 s' = skipped
                 \/ s' = set_prefetchCancelCh (fun q => q ++ [ptr]) s1).
Proof.
  intros Hs1 Hs2 alreadyShutDown skipped.
  split; [|split; [|split; [|split]]].
  - left. exists (errorsNew "Already shut down"). split; [|done].
    unfold WaitChannelForBlockPrefetch_send. rewrite Hs1.
    rewrite !selects_cons. right. left. done.
  - intros out [(e & Hsend & ->)|(s1' & Hsend & Hwait)].
    + unfold WaitChannelForBlockPrefetch_send in Hsend.
      rewrite !selects_cons, selects_nil in Hsend.
      destruct Hsend as [[_ ?]|[[_ Heq]|[[Hctx Heq]|[]]]]; [done| |].
      * left. by inversion Heq.
      * right. left. inversion Heq. auto.
    + unfold WaitChannelForBlockPrefetch_wait in Hwait.
      rewrite !selects_cons, selects_nil in Hwait.
      destruct Hwait as [[Hreply Heq]|[[_ Heq]|[[Hctx Heq]|[]]]].
      * right. right. apply bool_decide_eq_true in Hreply as [w ->].
        exists w. by subst out.
      * left. by subst out.
      * right. left. subst out. auto.
  - unfold CancelPrefetch. rewrite Hs1, !selects_cons. right. left. done.
  - done.
  - intros s'. unfold CancelPrefetch.
    rewrite !selects_cons, selects_nil.
    intros [[_ <-]|[[_ <-]|[]]]; auto.
Qed.

(** ** Direct directory blocks *)

Definition sizeLe (a b : DirEntry) : Prop := (de_Size a <= de_Size b)%N.

(** The entries the loop of [prefetchDirectDirBlock] does not skip. *)
Definition isProcessed (e : DirEntry) : bool :=
  match de_Type e with
  | Dir | File | Exec => true
  | Sym | UnknownEntryType _ => false
  end.

(** The pointers logged as [Prefetching ...], in the order they were. *)
Definition prefetchingLog (t : list Effect) : list BlockPointer :=
  omap (fun e => match e with
                 | LogPrefetching ptr _ => Some ptr
                 | _ => None
                 end) t.

(** Every record in [prefetches] carries a request. *)
Definition knownRecords (s : State) : Prop :=
  forall id l, prefetches s !! id = Some l -> is_Some (req (heap s !!! l)).

Lemma insertBySize_perm (e : DirEntry) (l : list DirEntry) :
  insertBySize e l ≡ₚ e :: l.
Proof.
  induction l as [|x l IH]; [done|]. cbn.
  destruct (de_Size e <=? de_Size x)%N; [done|].
  rewrite IH. apply perm_swap.
Qed.

Lemma insertBySize_sorted (e : DirEntry) (l : list DirEntry) :
  StronglySorted sizeLe l -> StronglySorted sizeLe (insertBySize e l).
Proof.
  induction 1 as [|x l Hl IH Hx]; cbn.
  - repeat constructor.
  - destruct (de_Size e <=? de_Size x)%N eqn:Hle.
    + apply N.leb_le in Hle. constructor; [by constructor|].
      constructor; [done|].
      eapply Forall_impl; [exact Hx|]. unfold sizeLe. intros; lia.
    + apply N.leb_gt in Hle. constructor; [done|].
      rewrite insertBySize_perm. constructor; [|done].
      unfold sizeLe. lia.
Qed.

Lemma sortBySizeAsc_perm (l : list DirEntry) : sortBySizeAsc l ≡ₚ l.
Proof.
  induction l as [|x l IH]; [done|].
  cbn. by rewrite insertBySize_perm, IH.
Qed.

Lemma sortBySizeAsc_sorted (l : list DirEntry) :
  StronglySorted sizeLe (sortBySizeAsc l).
Proof.
  induction l as [|x l IH]; [constructor|].
  cbn. by apply insertBySize_sorted.
Qed.

Lemma filter_StronglySorted {A} (R : A -> A -> Prop) (f : A -> bool)
  (l : list A) :
  StronglySorted R l -> StronglySorted R (List.filter f l).
Proof.
  induction 1 as [|x l Hl IH Hx]; cbn; [constructor|].
  destruct (f x); [|done].
  constructor; [done|].
  apply List.Forall_forall. intros y Hy.
  apply List.filter_In in Hy as [Hy _].
  by eapply List.Forall_forall in Hx.
Qed.

Lemma filter_Permutation {A} (f : A -> bool) (l l' : list A) :
  l ≡ₚ l' -> List.filter f l ≡ₚ List.filter f l'.
Proof.
  induction 1 as [|x l l' _ IH|x y l|l l' l'' _ IH1 _ IH2]; cbn.
  - done.
  - destruct (f x); by rewrite IH.
  - destruct (f x), (f y); try done. apply perm_swap.
  - by rewrite IH1.
Qed.

Lemma prefetchingLog_app (t t' : list Effect) :
  prefetchingLog (t ++ t') = prefetchingLog t ++ prefetchingLog t'.
Proof. apply omap_app. Qed.

Lemma prefetchingLog_cons (ptr : BlockPointer) (a : BlockRequestAction)
  (t : list Effect) :
  prefetchingLog (LogPrefetching ptr a :: t) = ptr :: prefetchingLog t.
Proof. reflexivity. Qed.

(** [request] with the parent active and every record carrying a request:
    it returns, keeps both facts, logs no [Prefetching] line of its own and
    adds at most the child to [prefetches]. *)
Lemma request_frame (priority : Z) (kmd : option KeyMetadata)
  (ptr : BlockPointer) (block : Block) (lifetime : BlockCacheLifetime)
  (parentPtr : BlockPointer) (isParentNew : bool)
  (action : BlockRequestAction) (idsSeen : gset kbfsblock_ID) (s : State) :
  is_Some (prefetches s !! ID parentPtr) -> knownRecords s ->
  exists n idsSeen' s' t',
    request priority kmd ptr block lifetime parentPtr isParentNew action
      idsSeen s = Ok (n, idsSeen') s'
    /\ is_Some (prefetches s' !! ID parentPtr)
    /\ knownRecords s'
    /\ trace s' = trace s ++ t'
    /\ prefetchingLog t' = []
    /\ dom (prefetches s') ⊆ dom (prefetches s) ∪ {[ID ptr]}.
Proof.
  intros Hpar Hknown.
  destruct (decide (ID ptr ∈ idsSeen)) as [Hseen|Hseen].
  { exists 0, idsSeen, s, []. unfold request.
    destruct (decide (ID ptr ∈ idsSeen)); [|done].
    rewrite app_nil_r. repeat split; try done. set_solver. }
  rewrite request_eq by eauto.
  unfold childReady. cbv zeta.
  set (fetch := EffRequest priority kmd ptr block lifetime action).
  assert (forall pre s1 t',
            prefetches s1 = <[ID ptr := pre]> (prefetches s) ->
            (forall l, l ≠ pre -> heap s1 !!! l = heap s !!! l) ->
            is_Some (req (heap s1 !!! pre)) ->
            trace s1 = trace s ++ t' -> prefetchingLog t' = [] ->
            exists n idsSeen' s' t',
              requestEdge ptr parentPtr isParentNew (idsSeen ∪ {[ID ptr]})
                pre s1 = Ok (n, idsSeen') s'
              /\ is_Some (prefetches s' !! ID parentPtr)
              /\ knownRecords s'
              /\ trace s' = trace s ++ t'
              /\ prefetchingLog t' = []
              /\ dom (prefetches s') ⊆ dom (prefetches s) ∪ {[ID ptr]})
    as Hedge.
  { intros pre s1 t' Hpref Hheap Hreq Htrace Hlog.
    assert (is_Some (prefetches s1 !! ID parentPtr)) as Hpar1.
    { rewrite Hpref, lookup_insert. case_decide; eauto. }
    assert (knownRecords s1) as Hknown1.
    { intros id l Hl. destruct (decide (l = pre)) as [->|Hne]; [done|].
      rewrite Hheap by done. rewrite Hpref in Hl.
      apply lookup_insert_Some in Hl as [[_ ?]|[_ Hl]]; [done|].
      by eapply Hknown. }
    assert (dom (prefetches s1) ⊆ dom (prefetches s) ∪ {[ID ptr]}) as Hdom.
    { rewrite Hpref, dom_insert_L. set_solver. }
    rewrite requestEdge_eq. destruct Hpar1 as [lpar Hlpar].
    rewrite Hlpar. cbv zeta.
    destruct (_ || isParentNew).
    - eexists _, _, _, t'. split; [reflexivity|]. sproj.
      rewrite Hlpar. repeat split; eauto.
      intros id l Hl. sproj.
      destruct (decide (l = pre)) as [->|Hne].
      + rewrite lookup_total_insert_eq. by sproj.
      + rewrite lookup_total_insert_ne by done. by eapply Hknown1.
    - eexists _, _, _, t'. split; [reflexivity|].
      rewrite Hlpar. repeat split; eauto. }
  destruct (prefetches s !! ID ptr) as [pre|] eqn:Hpre.
  - destruct (Hknown _ _ Hpre) as [r Hr]. rewrite Hr.
    case_bool_decide.
    + apply (Hedge pre s []); rewrite ?app_nil_r;
        first [done | by rewrite insert_id | by rewrite Hr].
    + apply (Hedge pre _ [fetch]); sproj;
        first [ done | by rewrite insert_id
              | by intros l Hne; rewrite lookup_total_insert_ne
              | by rewrite lookup_total_insert_eq; sproj ].
  - apply (Hedge _ _ [fetch]); sproj;
      first [ done
            | by intros l Hne; rewrite lookup_total_insert_ne
            | by rewrite lookup_total_insert_eq; sproj ].
Qed.

(** The loop over the sorted entries, from any accumulator. *)
Lemma prefetchDirEntry_loop (newPriority : Z) (kmd : option KeyMetadata)
  (lifetime : BlockCacheLifetime) (parentPtr : BlockPointer)
  (isPrefetchNew : bool) (action : BlockRequestAction)
  (entries : list DirEntry) :
  forall (acc : Z * nat * gset kbfsblock_ID) (s : State),
    is_Some (prefetches s !! ID parentPtr) -> knownRecords s ->
    exists numBlocks idsSeen s' t',
      foldM (prefetchDirEntry newPriority kmd lifetime parentPtr
               isPrefetchNew action) entries acc s
      = Ok (numBlocks,
            (acc.1.2 + length (List.filter isProcessed entries))%nat,
            idsSeen) s'
      /\ trace s' = trace s ++ t'
      /\ prefetchingLog t'
         = map de_BlockPointer (List.filter isProcessed entries)
      /\ dom (prefetches s')
         ⊆ dom (prefetches s)
           ∪ list_to_set
               (map (fun e => ID (de_BlockPointer e))
                  (List.filter isProcessed entries)).
Proof.
  induction entries as [|entry entries IH]; intros [[nb cnt] seen] s Hpar Hknown.
  - exists nb, seen, s, []. cbn.
    rewrite app_nil_r, Nat.add_0_r. repeat split; try done. set_solver.
  - cbn [foldM]. rewrite bind_eq.
    assert (isProcessed entry = true ->
            forall block,
              exists numBlocks idsSeen s' t',
                (emit (LogPrefetching (de_BlockPointer entry) action);;
                 '(n, idsSeen) ← request newPriority kmd
                                   (de_BlockPointer entry) block lifetime
                                   parentPtr isPrefetchNew action seen;
                 mret (wrap_int (nb + n), S cnt, idsSeen)) s
                = Ok (numBlocks, S cnt, idsSeen) s'
                /\ is_Some (prefetches s' !! ID parentPtr)
                /\ knownRecords s'
                /\ trace s' = trace s ++ t'
                /\ prefetchingLog t' = [de_BlockPointer entry]
                /\ dom (prefetches s')
                   ⊆ dom (prefetches s) ∪ {[ID (de_BlockPointer entry)]})
      as Hprocess.
    { intros _ block. mrun.
      destruct (request_frame newPriority kmd (de_BlockPointer entry) block
                  lifetime parentPtr isPrefetchNew action seen
                  (set_trace
                     (fun t => t ++ [LogPrefetching (de_BlockPointer entry)
                                       action]) s))
        as (n & seen' & s' & t' & Hreq & Hpar' & Hknown' & Htrace & Hlog
            & Hdom); [done|done|].
      rewrite Hreq. mrun.
      exists (wrap_int (nb + n)), seen', s',
        (LogPrefetching (de_BlockPointer entry) action :: t').
      split; [done|]. split; [done|]. split; [done|].
      split; [by rewrite Htrace; sproj; rewrite <- app_assoc|].
      split; [by rewrite prefetchingLog_cons, Hlog|done]. }
    unfold prefetchDirEntry at 1. cbv zeta. cbn [fst snd].
    destruct (isProcessed entry) eqn:Hproc.
    + assert (exists numBlocks idsSeen s' t',
                match de_Type entry with
                | Dir =>
                    emit (LogPrefetching (de_BlockPointer entry) action);;
                    '(n, idsSeen) ← request newPriority kmd
                                      (de_BlockPointer entry)
                                      (DirBlock false [] ∅) lifetime
                                      parentPtr isPrefetchNew action seen;
                    mret (wrap_int (nb + n), S cnt, idsSeen)
                | Sym => mret (nb, cnt, seen)
                | UnknownEntryType n =>
                    emit (LogSkipUnknownType n);; mret (nb, cnt, seen)
                | _ =>
                    emit (LogPrefetching (de_BlockPointer entry) action);;
                    '(n, idsSeen) ← request newPriority kmd
                                      (de_BlockPointer entry)
                                      (FileBlock false []) lifetime
                                      parentPtr isPrefetchNew action seen;
                    mret (wrap_int (nb + n), S cnt, idsSeen)
                end s = Ok (numBlocks, S cnt, idsSeen) s'
                /\ is_Some (prefetches s' !! ID parentPtr)
                /\ knownRecords s'
                /\ trace s' = trace s ++ t'
                /\ prefetchingLog t' = [de_BlockPointer entry]
                /\ dom (prefetches s')
                   ⊆ dom (prefetches s) ∪ {[ID (de_BlockPointer entry)]})
        as (nb1 & seen1 & s1 & t1 & Hrun & Hpar1 & Hknown1 & Htrace1 & Hlog1
            & Hdom1).
      { unfold isProcessed in Hproc.
        destruct (de_Type entry); try done; by apply Hprocess. }
      rewrite Hrun.
      destruct (IH (nb1, S cnt, seen1) s1 Hpar1 Hknown1)
        as (nb2 & seen2 & s2 & t2 & Hrun2 & Htrace2 & Hlog2 & Hdom2).
      exists nb2, seen2, s2, (t1 ++ t2).
      cbn [List.filter]. rewrite Hproc. cbn [length map fst snd] in *.
      rewrite Hrun2. split; [do 3 f_equal; lia|].
      split; [by rewrite Htrace2, Htrace1, app_assoc|].
      split; [by rewrite prefetchingLog_app, Hlog1, Hlog2|].
      cbn [list_to_set]. set_solver.
    + assert (exists t1,
                match de_Type entry with
                | Dir =>
                    emit (LogPrefetching (de_BlockPointer entry) action);;
                    '(n, idsSeen) ← request newPriority kmd
                                      (de_BlockPointer entry)
                                      (DirBlock false [] ∅) lifetime
                                      parentPtr isPrefetchNew action seen;
                    mret (wrap_int (nb + n), S cnt, idsSeen)
                | Sym => mret (nb, cnt, seen)
                | UnknownEntryType n =>
                    emit (LogSkipUnknownType n);; mret (nb, cnt, seen)
                | _ =>
                    emit (LogPrefetching (de_BlockPointer entry) action);;
                    '(n, idsSeen) ← request newPriority kmd
                                      (de_BlockPointer entry)
                                      (FileBlock false []) lifetime
                                      parentPtr isPrefetchNew action seen;
                    mret (wrap_int (nb + n), S cnt, idsSeen)
                end s
                = Ok (nb, cnt, seen) (set_trace (fun t => t ++ t1) s)
                /\ prefetchingLog t1 = []) as (t1 & Hrun & Hlog1).
      { unfold isProcessed in Hproc.
        destruct (de_Type entry) as [| | | |n]; try done.
        - exists []. mrun. split; [|done].
          f_equal. destruct s; sflat. by rewrite app_nil_r.
        - exists [LogSkipUnknownType n]. by mrun. }
      rewrite Hrun.
      destruct (IH (nb, cnt, seen) (set_trace (fun t => t ++ t1) s))
        as (nb2 & seen2 & s2 & t2 & Hrun2 & Htrace2 & Hlog2 & Hdom2);
        [done|done|].
      exists nb2, seen2, s2, (t1 ++ t2).
      cbn [List.filter]. rewrite Hproc. cbn [fst snd] in *.
      rewrite Hrun2. split; [done|].
      split; [by rewrite Htrace2; sproj; rewrite app_assoc|].
      split; [by rewrite prefetchingLog_app, Hlog1, Hlog2|done].
Qed.

(** C8.  [prefetchDirectDirBlock] on the children of a direct directory
    block, with the parent active and every record carrying a request: it
    returns; the children it processes are logged in ascending order of
    [Size]; they are exactly the children that are neither symbolic links
    nor of unknown type, the only ones that can get a record; and [isTail]
    is true exactly when no child was processed. *)
Theorem prefetchDirectDirBlock_spec (parentPtr : BlockPointer)
  (Children : gmap string DirEntry) (kmd : option KeyMetadata)
  (lifetime : BlockCacheLifetime) (isPrefetchNew : bool)
  (action : BlockRequestAction) (basePriority : Z) (s : State) :
  is_Some (prefetches s !! ID parentPtr) -> knownRecords s ->
  let processed :=
    List.filter isProcessed (sortBySizeAsc (dirEntryMapToDirEntries Children))
  in
  exists numBlocks isTail s' t',
    prefetchDirectDirBlock parentPtr Children kmd lifetime isPrefetchNew
      action basePriority s = Ok (numBlocks, isTail) s'
    /\ trace s' = trace s ++ t'
    /\ prefetchingLog t' = map de_BlockPointer processed
    /\ StronglySorted sizeLe processed
    /\ processed
       ≡ₚ List.filter isProcessed (dirEntryMapToDirEntries Children)
    /\ dom (prefetches s')
       ⊆ dom (prefetches s)
         ∪ list_to_set (map (fun e => ID (de_BlockPointer e)) processed)
    /\ (isTail = true <-> processed = []).
Proof.
  intros Hpar Hknown processed.
  unfold prefetchDirectDirBlock. cbv zeta. rewrite bind_eq.
  destruct (prefetchDirEntry_loop (calculatePriority basePriority action) kmd
              lifetime parentPtr isPrefetchNew action
              (sortBySizeAsc (dirEntryMapToDirEntries Children))
              (0, 0%nat, ∅) s Hpar Hknown)
    as (nb & seen & s' & t' & Hrun & Htrace & Hlog & Hdom).
  rewrite Hrun. cbn [fst snd Nat.add]. fold processed in Hlog, Hdom |- *.
  mrun.
  exists nb, (bool_decide (length processed = 0%nat)), s', t'.
  split; [done|]. split; [done|]. split; [done|].
  split; [apply filter_StronglySorted, sortBySizeAsc_sorted|].
  split; [apply filter_Permutation, sortBySizeAsc_perm|].
  split; [done|].
  rewrite bool_decide_eq_true. by destruct processed.
Qed.

(** ** Invariants of the tree walks

    A property of the state that does not read the store of records is kept
    by a walk as soon as the function applied at each node keeps it: the
    walk itself only prunes [parents] buckets. *)
Section WalkInvariant.
Variable P : State -> Prop.
Hypothesis P_heap : forall g s, P s -> P (set_heap g s).

Lemma forEach_invariant {A} (l : list A) (body : A -> M unit) :
  (forall a s s', P s -> body a s = Ok tt s' -> P s') ->
  forall s s', P s -> forEach l body s = Ok tt s' -> P s'.
Proof.
  intros Hbody. induction l as [|a l IH]; intros s s' HP Hrun.
  - cbn in Hrun. by inversion Hrun; subst.
  - cbn [forEach] in Hrun.
    apply bind_inv_Ok in Hrun as ([] & s1 & Ha & Hrest).
    eapply IH; [|exact Hrest]. eapply Hbody; eauto.
Qed.

Lemma deleteFromBucket_invariant (l : loc) (n : kbfsblock_RefNonce)
  (pptr : BlockPointer) (s s' : State) :
  P s -> deleteFromBucket l n pptr s = Ok tt s' -> P s'.
Proof.
  unfold deleteFromBucket. rewrite modifyPrefetch_eq.
  intros HP Heq. inversion Heq; subst. by apply P_heap.
Qed.

Lemma deleteEmptyBucket_invariant (l : loc) (n : kbfsblock_RefNonce)
  (s s' : State) :
  P s -> deleteEmptyBucket l n s = Ok tt s' -> P s'.
Proof.
  unfold deleteEmptyBucket. mrun.
  destruct (decide _); mrun; intros HP Heq; inversion Heq; subst;
    [by apply P_heap|done].
Qed.

Lemma visitParent_invariant (recurse : BlockPointer -> loc -> M unit)
  (pre : loc) (n : kbfsblock_RefNonce) (pptr : BlockPointer) :
  (forall l s s', P s -> recurse pptr l s = Ok tt s' -> P s') ->
  forall s s', P s -> visitParent recurse pre n pptr s = Ok tt s' -> P s'.
Proof.
  intros Hrec s s' HP. unfold visitParent. mrun.
  destruct (prefetches s !! ID pptr) as [parent|].
  - by apply Hrec.
  - by apply deleteFromBucket_invariant.
Qed.

(** The state in which the walk applies [f] to the node it started from. *)
Lemma applyToParentsRecursive_last (f : kbfsblock_ID -> loc -> M unit) :
  (forall x l s s', P s -> f x l s = Ok tt s' -> P s') ->
  forall fuel x l s s',
    P s -> applyToParentsRecursive fuel f x l s = Ok tt s' ->
    exists s1, P s1 /\ f x l s1 = Ok tt s'.
Proof.
  intros Hf. induction fuel as [|fuel IH]; intros x l s s' HP Hrun;
    [done|].
  cbn [applyToParentsRecursive] in Hrun.
  rewrite bind_eq, getPrefetch_eq in Hrun. cbv beta iota in Hrun.
  apply bind_inv_Ok in Hrun as ([] & s1 & Hloop & Hlast).
  exists s1. split; [|done].
  eapply forEach_invariant; [|exact HP|exact Hloop].
  intros [refNonce refMap] s2 s3 HP2 Hbody.
  apply bind_inv_Ok in Hbody as ([] & s4 & Hinner & Hclean).
  eapply deleteEmptyBucket_invariant; [|exact Hclean].
  eapply forEach_invariant; [|exact HP2|exact Hinner].
  intros pptr s5 s6 HP5. apply visitParent_invariant; [|done].
  intros l' s7 s8 HP7 Hrec.
  destruct (IH _ _ _ _ HP7 Hrec) as (s9 & HP9 & Hf9). eauto.
Qed.

Lemma applyToParentsRecursive_invariant
  (f : kbfsblock_ID -> loc -> M unit) :
  (forall x l s s', P s -> f x l s = Ok tt s' -> P s') ->
  forall fuel x l s s',
    P s -> applyToParentsRecursive fuel f x l s = Ok tt s' -> P s'.
Proof.
  intros Hf fuel x l s s' HP Hrun.
  destruct (applyToParentsRecursive_last f Hf fuel x l s s' HP Hrun)
    as (s1 & HP1 & Hlast). eauto.
Qed.

Lemma applyToPtrParentsRecursive_invariant
  (f : BlockPointer -> loc -> M unit) :
  (forall x l s s', P s -> f x l s = Ok tt s' -> P s') ->
  forall fuel x l s s',
    P s -> applyToPtrParentsRecursive fuel f x l s = Ok tt s' -> P s'.
Proof.
  intros Hf. induction fuel as [|fuel IH]; intros x l s s' HP Hrun;
    [done|].
  cbn [applyToPtrParentsRecursive] in Hrun.
  rewrite bind_eq, getPrefetch_eq in Hrun. cbv beta iota in Hrun.
  apply bind_inv_Ok in Hrun as ([] & s1 & Hloop & Hrest).
  apply bind_inv_Ok in Hrest as ([] & s2 & Hclean & Hlast).
  eapply Hf; [|exact Hlast].
  eapply deleteEmptyBucket_invariant; [|exact Hclean].
  eapply forEach_invariant; [|exact HP|exact Hloop].
  intros pptr s5 s6 HP5. apply visitParent_invariant; [|done].
  intros l' s7 s8 HP7 Hrec. eauto.
Qed.
End WalkInvariant.

(** ** [prefetches] and [rescheduled] *)

(** The blocks that are in both maps all lie in [X]. *)
Definition disjointExcept (X : gset kbfsblock_ID) (s : State) : Prop :=
  dom (prefetches s) ∩ dom (rescheduled s) ⊆ X.

Lemma Close_inv (l : loc) (s s' : State) :
  Close l s = Ok tt s' ->
  s' = set_trace (fun t => t ++ [EffClose l])
         (set_heap <[l := set_waitChClosed true (heap s !!! l)]> s).
Proof.
  rewrite Close_eq. destruct (waitChClosed _); [done|]. by inversion 1.
Qed.

(** The state [clearRescheduleState] leaves. *)
Definition cleared (blockID : kbfsblock_ID) (s : State) : State :=
  match rescheduled s !! blockID with
  | Some rp =>
      match timer rp with
      | Some _ =>
          set_rescheduled <[blockID := mkRescheduledPrefetch (off rp) None]>
            (set_trace (fun t => t ++ [EffTimerStop blockID]) s)
      | None => s
      end
  | None => s
  end.

Lemma clearRescheduleState_cleared (blockID : kbfsblock_ID) (s : State) :
  clearRescheduleState blockID s = Ok tt (cleared blockID s).
Proof. apply clearRescheduleState_eq. Qed.

Lemma cleared_dom (blockID : kbfsblock_ID) (s : State) :
  prefetches (cleared blockID s) = prefetches s
  /\ dom (rescheduled (cleared blockID s)) = dom (rescheduled s)
  /\ heap (cleared blockID s) = heap s
  /\ inFlightFetches (cleared blockID s) = inFlightFetches s.
Proof.
  unfold cleared.
  destruct (rescheduled s !! blockID) as [rp|] eqn:Hrp; [|done].
  destruct (timer rp); [|done]. sproj. repeat split.
  rewrite dom_insert_L. apply elem_of_dom_2 in Hrp. set_solver.
Qed.

Lemma cancelPrefetch_inv (ptr : BlockPointer) (pp : loc) (s s' : State) :
  cancelPrefetch ptr pp s = Ok tt s' ->
  (forall l, l ≠ pp -> heap s' !!! l = heap s !!! l)
  /\ parents (heap s' !!! pp)
     = delete (RefNonce ptr) (parents (heap s !!! pp))
  /\ ((parents (heap s' !!! pp) = ∅
       /\ prefetches s' = delete (ID ptr) (prefetches s)
       /\ dom (rescheduled s') = dom (rescheduled s) ∖ {[ID ptr]})
      \/ (parents (heap s' !!! pp) ≠ ∅
          /\ prefetches s' = prefetches s
          /\ rescheduled s' = rescheduled s)).
Proof.
  unfold cancelPrefetch. mrun. sproj. rewrite lookup_total_insert_eq. sproj.
  destruct (decide _) as [Hsize|Hsize].
  - apply map_size_empty_iff in Hsize.
    mrun.
    destruct (Close pp _) as [[] s1| |] eqn:HClose; [|done|done].
    apply Close_inv in HClose. sproj.
    rewrite lookup_total_insert_eq in HClose.
    set (p' := set_parents _ _) in *.
    assert (heap s1 = <[pp := set_waitChClosed true p']> (heap s)) as Hh1
      by (subst s1; sproj; by rewrite insert_insert_eq).
    assert (prefetches s1 = delete (ID ptr) (prefetches s)) as Hp1
      by by subst s1.
    assert (rescheduled s1 = rescheduled s) as Hr1 by by subst s1.
    clear HClose.
    rewrite bind_eq, clearRescheduleState_cleared.
    destruct (cleared_dom (ID ptr) s1) as (Hp2 & Hr2 & Hh2 & _).
    mrun. inversion 1; subst s'. sproj. rewrite Hh2, Hp2, Hh1, Hp1.
    split; [intros l Hl; by rewrite !lookup_total_insert_ne|].
    rewrite !lookup_total_insert_eq. sproj.
    split; [done|]. left. split; [done|]. split; [done|].
    by rewrite dom_delete_L, Hr2, Hr1.
  - mrun. inversion 1; subst s'. sproj.
    split; [intros l Hl; by rewrite !lookup_total_insert_ne|].
    rewrite !lookup_total_insert_eq. sproj.
    split; [done|]. right. split; [|done].
    intros Hempty. apply Hsize. by rewrite Hempty, map_size_empty.
Qed.

Lemma cancelPrefetch_disjointExcept (X : gset kbfsblock_ID)
  (ptr : BlockPointer) (pp : loc) (s s' : State) :
  disjointExcept X s -> cancelPrefetch ptr pp s = Ok tt s' ->
  disjointExcept X s'.
Proof.
  unfold disjointExcept. intros Hdis Hrun.
  apply cancelPrefetch_inv in Hrun as (_ & _ & [(_ & Hp & Hr)|(_ & Hp & Hr)]).
  - rewrite Hp, Hr, dom_delete_L. set_solver.
  - by rewrite Hp, Hr.
Qed.

Lemma disjointExcept_heap (X : gset kbfsblock_ID)
  (g : gmap loc prefetch -> gmap loc prefetch) (s : State) :
  disjointExcept X s -> disjointExcept X (set_heap g s).
Proof. done. Qed.

(** Cancelling every refnonce of a record, as [rescheduleTopBlock] does for
    a block that has parents, ends with the block out of [prefetches]. *)
Lemma cancel_all_refnonces (blockID : kbfsblock_ID) (pp : loc)
  (X : gset kbfsblock_ID) (ks : list kbfsblock_RefNonce) :
  forall s s',
    forEach ks (fun refNonce =>
                  cancelPrefetch (mkBlockPointer blockID refNonce) pp) s
    = Ok tt s' ->
    disjointExcept X s ->
    dom (parents (heap s !!! pp)) ⊆ list_to_set ks ->
    (ks = [] -> prefetches s !! blockID = None) ->
    disjointExcept X s' /\ prefetches s' !! blockID = None.
Proof.
  induction ks as [|k ks IH]; intros s s' Hrun Hdis Hdom Hnil.
  - cbn in Hrun. inversion Hrun; subst. auto.
  - cbn [forEach] in Hrun.
    apply bind_inv_Ok in Hrun as ([] & s1 & Hk & Hrest).
    pose proof (cancelPrefetch_disjointExcept X _ _ _ _ Hdis Hk) as Hdis1.
    apply cancelPrefetch_inv in Hk as (_ & Hparents & Hcases).
    cbn [RefNonce ID] in *.
    apply (IH s1 s' Hrest Hdis1).
    + rewrite Hparents, dom_delete_L. cbn [list_to_set] in Hdom. set_solver.
    + intros ->. destruct Hcases as [(_ & Hp & _)|(Hne & _)].
      * rewrite Hp. apply lookup_delete_eq.
      * exfalso. apply Hne. apply dom_empty_iff_L.
        rewrite Hparents, dom_delete_L. cbn [list_to_set] in Hdom. set_solver.
Qed.

Lemma rescheduleTopBlock_disjointExcept (X : gset kbfsblock_ID)
  (blockID : kbfsblock_ID) (pp : loc) (s s' : State) :
  disjointExcept X s -> rescheduleTopBlock env blockID pp s = Ok tt s' ->
  disjointExcept X s' /\ prefetches s' !! blockID = None.
Proof.
  intros Hdis. unfold rescheduleTopBlock. mrun.
  destruct (decide _) as [Hsize|Hsize].
  - intros Hrun.
    eapply cancel_all_refnonces; [exact Hrun|done| |].
    + intros k Hk. apply elem_of_dom in Hk as [b Hb].
      apply elem_of_list_to_set, list_elem_of_fmap.
      exists (k, b). split; [done|]. by apply elem_of_map_to_list.
    + intros Hnil. exfalso. apply Hsize.
      apply fmap_nil_inv in Hnil. apply map_to_list_empty_iff in Hnil.
      by rewrite Hnil, map_size_empty.
  - mrun.
    destruct (Close pp _) as [[] s1| |] eqn:HClose; [|done|done].
    apply Close_inv in HClose. mrun.
    assert (prefetches s1 !! blockID = None) as Hgone.
    { subst s1. sproj. apply lookup_delete_eq. }
    assert (disjointExcept X s1) as Hdis1.
    { subst s1. unfold disjointExcept in *. sproj. rewrite dom_delete_L.
      set_solver. }
    clear HClose.
    assert (forall rp s2 s',
              prefetches s2 = prefetches s1 ->
              dom (rescheduled s2) = dom (rescheduled s1) ∪ {[blockID]} ->
              match timer rp with
              | Some _ => mret tt
              | None =>
                  p ← getPrefetch pp;
                  match req p with
                  | None => nilDereference
                  | Some r =>
                      let '(d, off') := NextBackOff (off rp) in
                      modify (set_rescheduled
                                <[blockID :=
                                    mkRescheduledPrefetch off' None]>);;
                      match d with
                      | None => mret tt
                      | Some d =>
                          emit (EffAfterFunc blockID d);;
                          modify (set_rescheduled
                                    <[blockID :=
                                        mkRescheduledPrefetch off'
                                          (Some (mkTimer d r))]>)
                      end
                  end
              end s2 = Ok tt s' ->
              disjointExcept X s' /\ prefetches s' !! blockID = None)
      as Hrest.
    { intros rp s2 s'' Hp2 Hr2.
      assert (forall s3, prefetches s3 = prefetches s1 ->
                         dom (rescheduled s3)
                         = dom (rescheduled s1) ∪ {[blockID]} ->
                         disjointExcept X s3
                         /\ prefetches s3 !! blockID = None) as Hfinal.
      { intros s3 Hp3 Hr3. split; [|by rewrite Hp3].
        unfold disjointExcept in *. rewrite Hp3, Hr3.
        apply not_elem_of_dom in Hgone. set_solver. }
      destruct (timer rp).
      - mrun. inversion 1; subst. by apply Hfinal.
      - mrun. destruct (req _); [|done].
        destruct (NextBackOff (off rp)) as [[d|] off'].
        + mrun. inversion 1; subst. apply Hfinal; sproj; [done|].
          rewrite !dom_insert_L, Hr2. set_solver.
        + mrun. inversion 1; subst. apply Hfinal; sproj; [done|].
          rewrite !dom_insert_L, Hr2. set_solver. }
    destruct (rescheduled s1 !! blockID) as [rp|] eqn:Hrp.
    + mrun. apply Hrest; [done|]. apply elem_of_dom_2 in Hrp. set_solver.
    + cbv zeta. mrun. apply Hrest; sproj; [done|].
      rewrite dom_insert_L. set_solver.
Qed.

(** ** Properties kept by every step of a computation *)

Definition preserves {A} (P : State -> Prop) (m : M A) : Prop :=
  forall s a s', P s -> m s = Ok a s' -> P s'.

Lemma preserves_bind {A B} (P : State -> Prop) (m : M A) (f : A -> M B) :
  preserves P m -> (forall a, preserves P (f a)) -> preserves P (m ≫= f).
Proof.
  intros Hm Hf s b s' HP Hrun.
  apply bind_inv_Ok in Hrun as (a & s1 & Ha & Hb).
  eapply Hf; [|exact Hb]. eapply Hm; eauto.
Qed.

Lemma preserves_mret {A} (P : State -> Prop) (a : A) :
  preserves P (mret a : M A).
Proof. intros s a' s' HP Hrun. by inversion Hrun; subst. Qed.

Lemma preserves_panic {A} (P : State -> Prop) (msg : string) :
  preserves P (panic msg : M A).
Proof. by intros s a s' HP Hrun. Qed.

Lemma preserves_get (P : State -> Prop) : preserves P get.
Proof. intros s a s' HP Hrun. by inversion Hrun; subst. Qed.

Lemma preserves_getPrefetch (P : State -> Prop) (l : loc) :
  preserves P (getPrefetch l).
Proof. intros s a s' HP Hrun. by inversion Hrun; subst. Qed.

Lemma preserves_modify (P : State -> Prop) (g : State -> State) :
  (forall s, P s -> P (g s)) -> preserves P (modify g).
Proof. intros Hg s a s' HP Hrun. inversion Hrun; subst. by apply Hg. Qed.

Lemma preserves_forEach {A} (P : State -> Prop) (l : list A)
  (body : A -> M unit) :
  (forall a, preserves P (body a)) -> preserves P (forEach l body).
Proof.
  intros Hbody. induction l as [|a l IH]; cbn [forEach].
  - apply preserves_mret.
  - apply preserves_bind; [apply Hbody|intros _; apply IH].
Qed.

Lemma preserves_foldM {A S} (P : State -> Prop) (body : S -> A -> M S)
  (l : list A) (acc : S) :
  (forall acc a, preserves P (body acc a)) -> preserves P (foldM body l acc).
Proof.
  intros Hbody. revert acc. induction l as [|a l IH]; intros acc; cbn [foldM].
  - apply preserves_mret.
  - apply preserves_bind; [apply Hbody|intros acc'; apply IH].
Qed.

(** A property of [rescheduled] that deletions and clearing a timer keep,
    such as having its keys within a given set. *)
Section KeptByRequests.
Variable Q : gmap kbfsblock_ID rescheduledPrefetch -> Prop.
Hypothesis Q_delete : forall k m, Q m -> Q (delete k m).
Hypothesis Q_clear :
  forall k rp m, m !! k = Some rp ->
                 Q m -> Q (<[k := mkRescheduledPrefetch (off rp) None]> m).

Let P (s : State) : Prop := Q (rescheduled s).

Ltac pres_modify :=
  apply preserves_modify; intros ? ?; unfold P in *; sproj;
  first [ done | by apply Q_delete ].

Ltac pres_step :=
  lazymatch goal with
  | |- preserves _ (_ ≫= _) => apply preserves_bind; [|intros ?]
  | |- preserves _ (mret _) => apply preserves_mret
  | |- preserves _ (panic _) => apply preserves_panic
  | |- preserves _ nilDereference => apply preserves_panic
  | |- preserves _ get => apply preserves_get
  | |- preserves _ (getPrefetch _) => apply preserves_getPrefetch
  | |- preserves _ (modify _) => pres_modify
  | |- preserves _ (modifyPrefetch _ _) => pres_modify
  | |- preserves _ (emit _) => pres_modify
  | |- preserves _ (forEach _ _) => apply preserves_forEach; intros ?
  | |- preserves _ (foldM _ _ _) => apply preserves_foldM; intros ? ?
  | |- preserves _ (match ?x with _ => _ end) => destruct x
  | |- preserves _ (let '(_, _) := ?x in _) => destruct x
  end.

Lemma preserves_clearRescheduleState (blockID : kbfsblock_ID) :
  preserves P (clearRescheduleState blockID).
Proof.
  intros s a s' HP. rewrite clearRescheduleState_eq. inversion 1; subst.
  destruct (rescheduled s !! blockID) as [rp|] eqn:Hrp; [|done].
  destruct (timer rp); [|done]. unfold P. sproj. by apply Q_clear.
Qed.

Lemma preserves_Close (l : loc) : preserves P (Close l).
Proof. unfold Close. repeat pres_step. Qed.

Lemma preserves_newPrefetch (count : Z) (triggered : bool)
  (r : prefetchRequest) :
  preserves P (newPrefetch count triggered r).
Proof. intros s a s' HP Hrun. by inversion Hrun; subst. Qed.

Lemma preserves_retrieverRequestSync (priority : Z)
  (kmd : option KeyMetadata) (ptr : BlockPointer) (b : Block)
  (lifetime : BlockCacheLifetime) (action : BlockRequestAction) :
  preserves P (retrieverRequestSync env priority kmd ptr b lifetime action).
Proof. unfold retrieverRequestSync. repeat pres_step. Qed.

Lemma preserves_blockNewEmpty (b : option Block) :
  preserves P (blockNewEmpty b).
Proof. unfold blockNewEmpty. repeat pres_step. Qed.

Lemma preserves_kmdTlfID (kmd : option KeyMetadata) :
  preserves P (kmdTlfID kmd).
Proof. unfold kmdTlfID. repeat pres_step. Qed.

Lemma preserves_completePrefetch (numBlocks : Z) (blockID : kbfsblock_ID)
  (pp : loc) :
  preserves P (completePrefetch env numBlocks blockID pp).
Proof.
  unfold completePrefetch.
  repeat first [ apply preserves_clearRescheduleState
               | apply preserves_Close
               | apply preserves_retrieverRequestSync
               | apply preserves_blockNewEmpty
               | apply preserves_kmdTlfID
               | pres_step ].
Qed.

Lemma preserves_decrementPrefetch (blockID : kbfsblock_ID) (pp : loc) :
  preserves P (decrementPrefetch blockID pp).
Proof. unfold decrementPrefetch. repeat pres_step. Qed.

Lemma preserves_cancelPrefetch (ptr : BlockPointer) (pp : loc) :
  preserves P (cancelPrefetch ptr pp).
Proof.
  unfold cancelPrefetch.
  repeat first [ apply preserves_clearRescheduleState
               | apply preserves_Close
               | pres_step ].
Qed.

Lemma P_set_heap (g : gmap loc prefetch -> gmap loc prefetch) (s : State) :
  P s -> P (set_heap g s).
Proof. done. Qed.

Lemma preserves_applyToParentsRecursive (fuel : nat)
  (f : kbfsblock_ID -> loc -> M unit) (blockID : kbfsblock_ID) (pre : loc) :
  (forall x l, preserves P (f x l)) ->
  preserves P (applyToParentsRecursive fuel f blockID pre).
Proof.
  intros Hf s [] s' HP Hrun.
  eapply (applyToParentsRecursive_invariant P P_set_heap f); [|done|done].
  intros x l s1 s2 HP1 Hf1. by eapply Hf.
Qed.

Lemma preserves_applyToPtrParentsRecursive (fuel : nat)
  (f : BlockPointer -> loc -> M unit) (ptr : BlockPointer) (pre : loc) :
  (forall x l, preserves P (f x l)) ->
  preserves P (applyToPtrParentsRecursive fuel f ptr pre).
Proof.
  intros Hf s [] s' HP Hrun.
  eapply (applyToPtrParentsRecursive_invariant P P_set_heap f);
    [|done|done].
  intros x l s1 s2 HP1 Hf1. by eapply Hf.
Qed.

Lemma preserves_request (priority : Z) (kmd : option KeyMetadata)
  (ptr : BlockPointer) (block : Block) (lifetime : BlockCacheLifetime)
  (parentPtr : BlockPointer) (isParentNew : bool)
  (action : BlockRequestAction) (idsSeen : gset kbfsblock_ID) :
  preserves P (request priority kmd ptr block lifetime parentPtr
                 isParentNew action idsSeen).
Proof.
  unfold request. cbv zeta.
  repeat first [ apply preserves_newPrefetch | pres_step ].
Qed.

Lemma preserves_handlePrefetch (pre : loc) (isPrefetchNew : bool)
  (action : BlockRequestAction) (b : Block) :
  preserves P (handlePrefetch pre isPrefetchNew action b).
Proof.
  unfold handlePrefetch, prefetchIndirectFileBlock,
    prefetchIndirectDirBlock, prefetchDirectDirBlock, requestIPtr,
    prefetchDirEntry.
  cbv zeta.
  repeat first [ apply preserves_request | pres_step ].
Qed.

Lemma preserves_stopIfNeeded (r : prefetchRequest) :
  preserves P (stopIfNeeded env r).
Proof.
  unfold stopIfNeeded, reschedulePrefetch. repeat pres_step.
Qed.

Lemma preserves_runRequest (fuel : nat) (r : prefetchRequest) :
  preserves P (runRequest env fuel r).
Proof.
  unfold runRequest, runRequestFinished, runRequestTrigger,
    runRequestChildren, preReqAction, setPreReqAction.
  cbv zeta.
  repeat first [ apply preserves_clearRescheduleState
               | apply preserves_retrieverRequestSync
               | apply preserves_blockNewEmpty
               | apply preserves_kmdTlfID
               | apply preserves_newPrefetch
               | apply preserves_stopIfNeeded
               | apply preserves_handlePrefetch
               | apply preserves_applyToParentsRecursive; intros ? ?
               | apply preserves_applyToPtrParentsRecursive; intros ? ?
               | apply preserves_completePrefetch
               | apply preserves_decrementPrefetch
               | apply preserves_cancelPrefetch
               | pres_step ].
Qed.
End KeptByRequests.

Lemma disjointExcept_empty (s : State) :
  disjointExcept ∅ s <-> dom (prefetches s) ## dom (rescheduled s).
Proof. unfold disjointExcept. set_solver. Qed.

Lemma runRequest_rescheduled (fuel : nat) (r : prefetchRequest)
  (s s' : State) :
  runRequest env fuel r s = Ok tt s' ->
  dom (rescheduled s') ⊆ dom (rescheduled s).
Proof.
  intros Hrun.
  eapply (preserves_runRequest (fun m => dom m ⊆ dom (rescheduled s)));
    [| |reflexivity|exact Hrun].
  - intros k m Hm. rewrite dom_delete. set_solver.
  - intros k rp m Hk Hm. rewrite dom_insert. apply elem_of_dom_2 in Hk.
    set_solver.
Qed.

(** C2 (as amended).  From a state in which no block is in both maps, an
    iteration that handles a cancellation, a reschedule, an in-flight
    completion or the start of the shutdown ends in such a state again.  A
    request does not keep the property: it never adds to [rescheduled], but
    it leaves the entry of a block it makes active (only the timer of the
    requested block is stopped), so the blocks in both maps afterwards are
    blocks that were rescheduled and not active before. *)
Theorem both_maps (fuel : nat) (ev : Event) (s s' : State) :
  dom (prefetches s) ## dom (rescheduled s) ->
  runIteration env fuel ev s = Ok tt s' ->
  match ev with
  | EvRequest _ =>
      dom (rescheduled s') ⊆ dom (rescheduled s)
      /\ dom (prefetches s') ∩ dom (rescheduled s')
         ⊆ dom (rescheduled s) ∖ dom (prefetches s)
  | _ => dom (prefetches s') ## dom (rescheduled s')
  end.
Proof.
  intros Hdis Hrun. destruct ev as [|ptr|r|r|]; cbn [runIteration] in Hrun.
  - by inversion Hrun; subst.
  - apply disjointExcept_empty. apply disjointExcept_empty in Hdis.
    unfold runCancel in Hrun. rewrite bind_eq, get_eq in Hrun.
    cbv beta iota in Hrun.
    destruct (prefetches s !! ID ptr) as [pre|]; [|by inversion Hrun; subst].
    eapply (applyToPtrParentsRecursive_invariant (disjointExcept ∅));
      [| |exact Hdis|exact Hrun].
    + intros g s0. apply disjointExcept_heap.
    + intros x l s1 s2. apply cancelPrefetch_disjointExcept.
  - unfold runReschedule in Hrun. cbv zeta in Hrun.
    rewrite bind_eq, get_eq in Hrun. cbv beta iota in Hrun.
    apply bind_inv_Ok in Hrun as (pre & s1 & Hsetup & Hwalk).
    assert (disjointExcept {[ID (req_ptr r)]} s1) as Hdis1.
    { unfold disjointExcept.
      destruct (prefetches s !! ID (req_ptr r)) as [pre0|].
      - rewrite bind_eq, modifyPrefetch_eq in Hsetup.
        inversion Hsetup; subst. sproj. set_solver.
      - unfold newPrefetch in Hsetup. rewrite bind_eq in Hsetup.
        cbv beta iota zeta in Hsetup.
        rewrite bind_eq, modify_eq in Hsetup. inversion Hsetup; subst.
        sproj. rewrite dom_insert_L. set_solver. }
    destruct (applyToParentsRecursive_last (disjointExcept {[ID (req_ptr r)]})
                (disjointExcept_heap _) (rescheduleTopBlock env)
                (fun x l s2 s3 Hd Hf =>
                   proj1 (rescheduleTopBlock_disjointExcept _ x l s2 s3 Hd Hf))
                fuel _ _ s1 s' Hdis1 Hwalk) as (s2 & Hdis2 & Hlast).
    destruct (rescheduleTopBlock_disjointExcept _ _ _ _ _ Hdis2 Hlast)
      as [Hdis' Hgone].
    apply not_elem_of_dom in Hgone. unfold disjointExcept in Hdis'.
    set_solver.
  - pose proof (runRequest_rescheduled fuel r s s' Hrun) as Hsub.
    split; [done|]. set_solver.
  - apply disjointExcept_empty. apply disjointExcept_empty in Hdis.
    unfold runAlmostDone in Hrun.
    rewrite bind_eq, modify_eq in Hrun. cbv beta iota in Hrun.
    rewrite bind_eq, get_eq in Hrun. cbv beta iota in Hrun.
    eapply (forEach_invariant (disjointExcept ∅)); [| |exact Hrun]; [|done].
    intros id s1 s2 Hd. rewrite clearRescheduleState_cleared.
    inversion 1; subst. unfold disjointExcept in *.
    destruct (cleared_dom id s1) as (-> & -> & _). done.
Qed.

(** ** Walks over a forest

    [outcome post C r]: a result [r] that is a state satisfies [post], and
    running out of fuel happens only when [C] holds. *)
Definition outcome {A} (post : A -> State -> Prop) (C : Prop) (r : Result A)
  : Prop :=
  match r with
  | Ok a s' => post a s'
  | Panic _ => True
  | OutOfFuel => C
  end.

Lemma outcome_bind {A B} (post : B -> State -> Prop) (C : Prop) (m : M A)
  (f : A -> M B) (s : State) :
  outcome (fun a s1 => outcome post C (f a s1)) C (m s) ->
  outcome post C ((m ≫= f) s).
Proof. rewrite bind_eq. by destruct (m s). Qed.

Lemma outcome_impl {A} (post post' : A -> State -> Prop) (C : Prop)
  (r : Result A) :
  (forall a s', post a s' -> post' a s') ->
  outcome post C r -> outcome post' C r.
Proof. intros Himpl. destruct r; cbn; auto. Qed.

Lemma forEach_outcome {A} (Inv : State -> Prop) (C : Prop) (l : list A)
  (body : A -> M unit) :
  (forall a s, a ∈ l -> Inv s -> outcome (fun _ s' => Inv s') C (body a s)) ->
  forall s, Inv s -> outcome (fun _ s' => Inv s') C (forEach l body s).
Proof.
  induction l as [|a l IH]; intros Hbody s HInv; [done|].
  cbn [forEach]. apply outcome_bind.
  eapply outcome_impl; [|apply Hbody; [by left|done]].
  intros [] s1 HInv1. apply IH; [|done].
  intros a' s2 Ha'. apply Hbody. by right.
Qed.

(** A height for the records: every parent that is in [prefetches] sits
    strictly lower than its child.  Such a height exists exactly when the
    parent pointers of the active records have no cycle. *)
Definition ranked (h : loc -> nat) (s : State) : Prop :=
  forall l n pptr lp,
    pptr ∈ bucket (heap s !!! l) n ->
    prefetches s !! ID pptr = Some lp -> (h lp < h l)%nat.

(** What a walk may do to the forest: drop active blocks, drop edges. *)
Definition evolves (s s' : State) : Prop :=
  prefetches s' ⊆ prefetches s
  /\ forall l n, bucket (heap s' !!! l) n ⊆ bucket (heap s !!! l) n.

(** The fields of a record other than [parents]. *)
Definition core (p : prefetch)
  : Z * bool * option prefetchRequest * bool :=
  (subtreeBlockCount p, subtreeTriggered p, req p, waitChClosed p).

Lemma evolves_refl (s : State) : evolves s s.
Proof. split; [done|]. intros l n. done. Qed.

Lemma evolves_trans (s1 s2 s3 : State) :
  evolves s1 s2 -> evolves s2 s3 -> evolves s1 s3.
Proof.
  intros [Hp12 Hb12] [Hp23 Hb23]. split; [by etrans|].
  intros l n. etrans; [apply Hb23|apply Hb12].
Qed.

Lemma ranked_evolves (h : loc -> nat) (s s' : State) :
  ranked h s -> evolves s s' -> ranked h s'.
Proof.
  intros Hr [Hp Hb] l n pptr lp Hin Hlp.
  eapply Hr; [by apply Hb|]. by eapply lookup_weaken.
Qed.

Lemma bucket_set_parents_alter (p : prefetch) (n n' : kbfsblock_RefNonce)
  (pptr : BlockPointer) :
  bucket (set_parents (alter (fun b => b ∖ {[pptr]}) n (parents p)) p) n'
  ⊆ bucket p n'.
Proof.
  unfold bucket. sproj. rewrite lookup_alter.
  case_decide; [subst|done].
  destruct (parents p !! n'); cbn; set_solver.
Qed.

Lemma bucket_set_parents_delete (p : prefetch) (n n' : kbfsblock_RefNonce) :
  bucket (set_parents (delete n (parents p)) p) n' ⊆ bucket p n'.
Proof.
  unfold bucket. sproj. rewrite lookup_delete.
  case_decide; [subst; cbn; set_solver|done].
Qed.

Section RankedWalk.
Variable h : loc -> nat.
Variable f : kbfsblock_ID -> loc -> M unit.

(** [f] touches one record, keeps its [parents], and returns or panics. *)
Hypothesis f_local :
  forall x l s,
    outcome (fun _ s' =>
               prefetches s' ⊆ prefetches s
               /\ (forall l', l' ≠ l -> heap s' !!! l' = heap s !!! l')
               /\ parents (heap s' !!! l) = parents (heap s !!! l))
      False (f x l s).

(** The loops of a walk at [l], seen from the state [s] it started in. *)
Let Inv (l : loc) (s s1 : State) : Prop :=
  evolves s s1
  /\ (forall l', (h l <= h l')%nat -> l' ≠ l ->
                 heap s1 !!! l' = heap s !!! l')
  /\ core (heap s1 !!! l) = core (heap s !!! l).

Lemma Inv_prune (l : loc) (s s1 : State) (g : prefetch -> prefetch) :
  (forall p n, bucket (g p) n ⊆ bucket p n) ->
  (forall p, core (g p) = core p) ->
  Inv l s s1 -> Inv l s (set_heap <[l := g (heap s1 !!! l)]> s1).
Proof.
  intros Hg Hcore ([Hp Hb] & Hframe & Hc).
  split; [split|split]; sproj.
  - done.
  - intros l' n. destruct (decide (l' = l)) as [->|Hne].
    + rewrite lookup_total_insert_eq. etrans; [apply Hg|apply Hb].
    + rewrite lookup_total_insert_ne by done. apply Hb.
  - intros l' Hh Hne. rewrite lookup_total_insert_ne by done.
    by apply Hframe.
  - rewrite lookup_total_insert_eq. by rewrite Hcore.
Qed.

Lemma applyToParentsRecursive_ranked (fuel : nat) :
  forall x l s,
    ranked h s ->
    outcome (fun _ s' =>
               exists s1, Inv l s s1 /\ f x l s1 = Ok tt s')
      (fuel <= h l)%nat (applyToParentsRecursive fuel f x l s).
Proof.
  induction fuel as [|fuel IH]; intros x l s Hranked; [cbn; lia|].
  cbn [applyToParentsRecursive].
  apply outcome_bind. rewrite getPrefetch_eq. cbn [outcome].
  apply outcome_bind.
  eapply outcome_impl; cycle 1.
  - apply (forEach_outcome (Inv l s) (S fuel <= h l)%nat).
    + intros [refNonce refMap] s1 Hin HInv.
      apply elem_of_map_to_list in Hin.
      apply outcome_bind.
      eapply outcome_impl; cycle 1.
      * apply (forEach_outcome (Inv l s) (S fuel <= h l)%nat); [|done].
        intros pptr s2 Hpptr HInv2. apply elem_of_elements in Hpptr.
        unfold visitParent. apply outcome_bind.
        rewrite get_eq. cbn [outcome].
        destruct (prefetches s2 !! ID pptr) as [lp|] eqn:Hlp.
        -- assert (h lp < h l)%nat as Hlt.
           { destruct HInv2 as ([Hp2 _] & _ & _).
             eapply (Hranked l refNonce pptr lp).
             - unfold bucket. by rewrite Hin.
             - by eapply lookup_weaken. }
           assert (ranked h s2) as Hranked2
             by (eapply ranked_evolves; [done|apply HInv2]).
           specialize (IH (ID pptr) lp s2 Hranked2).
           destruct (applyToParentsRecursive fuel f (ID pptr) lp s2)
             as [[] s3| |]; cbn [outcome] in *; [|done|lia].
           destruct IH as (s4 & (Hev4 & Hframe4 & _) & Hf4).
           pose proof (f_local (ID pptr) lp s4) as Hloc.
           rewrite Hf4 in Hloc. cbn [outcome] in Hloc.
           destruct Hloc as (Hp3 & Hh3 & Hpar3).
           destruct HInv2 as (Hev2 & Hframe2 & Hcore2).
           assert (forall l', (h l <= h l')%nat ->
                              heap s3 !!! l' = heap s2 !!! l') as Hsame.
           { intros l' Hle.
             rewrite Hh3 by (intros ->; lia).
             apply Hframe4; [lia|intros ->; lia]. }
           split; [|split].
           ++ eapply evolves_trans; [exact Hev2|].
              eapply evolves_trans; [exact Hev4|].
              split; [done|]. intros l' n.
              destruct (decide (l' = lp)) as [->|Hne].
              ** unfold bucket. by rewrite Hpar3.
              ** by rewrite Hh3.
           ++ intros l' Hle Hne. rewrite Hsame by done.
              by apply Hframe2.
           ++ rewrite Hsame by done. done.
        -- unfold deleteFromBucket. rewrite modifyPrefetch_eq.
           cbn [outcome].
           apply (Inv_prune l s s2
                    (fun pp =>
                       set_parents
                         (alter (fun b => b ∖ {[pptr]}) refNonce
                            (parents pp)) pp)); [|done|done].
           intros p n. apply bucket_set_parents_alter.
      * cbn beta. intros [] s2 HInv2.
        unfold deleteEmptyBucket. apply outcome_bind.
        rewrite getPrefetch_eq. cbn [outcome].
        destruct (decide _).
        -- rewrite modifyPrefetch_eq. cbn [outcome].
           apply (Inv_prune l s s2
                    (fun pp => set_parents (delete refNonce (parents pp)) pp));
             [|done|done].
           intros p n. apply bucket_set_parents_delete.
        -- done.
    + split; [apply evolves_refl|done].
  - cbn beta. intros [] s1 HInv1.
    pose proof (f_local x l s1) as Hloc.
    destruct (f x l s1) as [[] s'| |] eqn:Hf; cbn [outcome] in *;
      [|done|done].
    eauto.
Qed.
End RankedWalk.

(** ** The finished-or-tail case of a request *)

Lemma completePrefetch_outcome (numBlocks : Z) (x : kbfsblock_ID) (l : loc)
  (s : State) :
  outcome (fun _ s' =>
             (forall l', l' ≠ l -> heap s' !!! l' = heap s !!! l')
             /\ parents (heap s' !!! l) = parents (heap s !!! l)
             /\ prefetches s'
                = (if wrap_int (subtreeBlockCount (heap s !!! l) - numBlocks)
                      =? 0
                   then delete x (prefetches s) else prefetches s)
             /\ inFlightFetches s' = inFlightFetches s)
    False (completePrefetch env numBlocks x l s).
Proof.
  unfold completePrefetch. do 4 mstep. sproj.
  rewrite lookup_total_insert_eq. sproj.
  set (c := wrap_int _).
  destruct (c <? 0); [done|].
  destruct (req (heap s !!! l)) as [r|]; [|done].
  destruct (c =? 0).
  2: { mrun. cbn [outcome]. sproj.
       split; [intros l' Hl'; by rewrite lookup_total_insert_ne|].
       by rewrite lookup_total_insert_eq. }
  do 2 mstep. rewrite bind_eq, clearRescheduleState_cleared. cbv beta iota.
  set (s1 := cleared x _).
  destruct (cleared_dom x
              (set_prefetches (delete x)
                 (set_heap
                    <[l := set_subtreeBlockCount c (heap s !!! l)]> s)))
    as (Hp1 & _ & Hh1 & Hf1).
  fold s1 in Hp1, Hh1, Hf1. sproj.
  mrun. destruct (req_block r) as [b|]; [|done].
  unfold blockNewEmpty. mrun.
  assert (forall s2,
            heap s2 = heap s1 -> prefetches s2 = prefetches s1 ->
            inFlightFetches s2 = inFlightFetches s1 ->
            outcome
              (fun _ s' =>
                 (forall l', l' ≠ l -> heap s' !!! l' = heap s !!! l')
                 /\ parents (heap s' !!! l) = parents (heap s !!! l)
                 /\ prefetches s' = delete x (prefetches s)
                 /\ inFlightFetches s' = inFlightFetches s)
              False (Close l s2)) as HClose.
  { intros s2 Hh2 Hp2 Hf2. rewrite Close_eq.
    destruct (waitChClosed _); [done|]. cbn [outcome]. sproj.
    rewrite Hh2, Hp2, Hf2, Hh1, Hp1, Hf1.
    split; [intros l' Hl'; by rewrite !lookup_total_insert_ne|].
    by rewrite !lookup_total_insert_eq. }
  destruct (retrieverRequest env _ _ _ _).
  - destruct (req_kmd r); [|done]. unfold kmdTlfID. mrun.
    by apply HClose.
  - by apply HClose.
Qed.

Lemma completePrefetch_local (numBlocks : Z) (x : kbfsblock_ID) (l : loc)
  (s : State) :
  outcome (fun _ s' =>
             prefetches s' ⊆ prefetches s
             /\ (forall l', l' ≠ l -> heap s' !!! l' = heap s !!! l')
             /\ parents (heap s' !!! l) = parents (heap s !!! l))
    False (completePrefetch env numBlocks x l s).
Proof.
  eapply outcome_impl; [|apply completePrefetch_outcome].
  intros [] s' (Hh & Hpar & Hp & _). split; [|done].
  rewrite Hp. destruct (_ =? 0); [apply delete_subseteq|done].
Qed.

(** The walk that completes a whole subtree count: over a forest, and with
    fuel above the height of the record, it returns or panics, and when it
    returns the record is out of [prefetches], no record has been added and
    no fetch has been queued. *)
Lemma complete_whole_count (h : loc -> nat) (fuel : nat)
  (blockID : kbfsblock_ID) (pre : loc) (s : State) :
  ranked h s -> (h pre < fuel)%nat ->
  outcome (fun _ s' =>
             prefetches s' !! blockID = None
             /\ prefetches s' ⊆ prefetches s
             /\ inFlightFetches s' = inFlightFetches s)
    False
    (applyToParentsRecursive fuel
       (completePrefetch env (subtreeBlockCount (heap s !!! pre)))
       blockID pre s).
Proof.
  intros Hranked Hfuel.
  set (n := subtreeBlockCount (heap s !!! pre)).
  pose proof (applyToParentsRecursive_ranked h (completePrefetch env n)
                (completePrefetch_local n) fuel blockID pre s Hranked)
    as Hwalk.
  destruct (applyToParentsRecursive fuel (completePrefetch env n) blockID pre
              s) as [[] s'| |] eqn:Hrun; cbn [outcome] in *; [|done|lia].
  destruct Hwalk as (s1 & ([Hp1 _] & _ & Hcore) & Hlast).
  pose proof (completePrefetch_outcome n blockID pre s1) as Hout.
  rewrite Hlast in Hout. cbn [outcome] in Hout.
  destruct Hout as (_ & _ & Hp' & _).
  assert (subtreeBlockCount (heap s1 !!! pre) = n) as Hcount
    by (unfold core in Hcore; by inversion Hcore).
  rewrite Hcount, Z.sub_diag, wrap_int_0 in Hp'. cbn in Hp'.
  split; [rewrite Hp'; apply lookup_delete_eq|].
  split; [rewrite Hp'; etrans; [apply delete_subseteq|done]|].
  eapply (applyToParentsRecursive_invariant
            (fun s0 => inFlightFetches s0 = inFlightFetches s));
    [done| |done|exact Hrun].
  intros x l s2 s3 Hs2 Hf.
  pose proof (completePrefetch_outcome n x l s2) as Hout.
  rewrite Hf in Hout. cbn [outcome] in Hout.
  destruct Hout as (_ & _ & _ & ->). done.
Qed.

Lemma cleared_trace (blockID : kbfsblock_ID) (s : State) :
  trace (cleared blockID s)
  = trace s ++ match pendingTimer s blockID with
               | Some _ => [EffTimerStop blockID]
               | None => []
               end.
Proof.
  unfold cleared, pendingTimer.
  destruct (rescheduled s !! blockID) as [rp|]; cbn;
    [destruct (timer rp); cbn|]; by rewrite ?app_nil_r.
Qed.

(** C5 (as amended).  A request that is not a wait-channel request and whose
    solo retrieval succeeds, when its status is [FinishedPrefetch] or the
    retrieved block is a tail.  No child is enumerated.  When the block is
    not active, the retrieved block is put in the caches with
    [FinishedPrefetch] only if the request's status is not already
    [FinishedPrefetch]; for a finished request nothing is written.  When the
    block is active, a negative count aborts; otherwise the walk applies
    [completePrefetch] with the whole [subtreeBlockCount] of the record, and
    over a forest (with fuel above the record's height) it returns or
    panics, and when it returns the record is out of [prefetches], no record
    has been added and no fetch has been queued. *)
Theorem runRequest_finished (fuel : nat) (r : prefetchRequest) (s : State)
  (blk b : Block) (h : loc -> nat) :
  req_sendCh r = None -> req_block r = Some blk ->
  let blockID := ID (req_ptr r) in
  let stop := match pendingTimer s blockID with
              | Some _ => [EffTimerStop blockID]
              | None => []
              end in
  let fetch := EffRequest defaultOnDemandRequestPriority (req_kmd r)
                 (req_ptr r) (NewEmpty blk) (req_lifetime r)
                 (SoloAction (req_action r)) in
  retrieverRequest env (trace s ++ stop) (req_ptr r)
    (SoloAction (req_action r)) (NewEmpty blk) = Some b ->
  req_prefetchStatus r = FinishedPrefetch \/ IsTail b = true ->
  (prefetches s !! blockID = None ->
   (req_prefetchStatus r = FinishedPrefetch ->
    runRequest env fuel r s
    = Ok tt (set_trace (fun t => t ++ [fetch]) (cleared blockID s)))
   /\ (req_prefetchStatus r ≠ FinishedPrefetch ->
       forall k, req_kmd r = Some k ->
       runRequest env fuel r s
       = Ok tt (set_trace
                  (fun t => t ++ [EffPutInCaches (req_ptr r) (TlfID k) b
                                    (req_lifetime r) FinishedPrefetch])
                  (set_trace (fun t => t ++ [fetch]) (cleared blockID s)))))
  /\ (forall pre, prefetches s !! blockID = Some pre ->
      let count := subtreeBlockCount (heap s !!! pre) in
      (count < 0 ->
       runRequest env fuel r s
       = Panic "the subtreeBlockCount for a block should never be < 0")
      /\ (0 <= count -> ranked h s -> (h pre < fuel)%nat ->
          (exists s1,
             runRequest env fuel r s
             = applyToParentsRecursive fuel (completePrefetch env count)
                 blockID pre s1
             /\ trace s1 = trace s ++ stop ++ [fetch])
          /\ outcome (fun _ s' =>
                        prefetches s' !! blockID = None
                        /\ prefetches s' ⊆ prefetches s
                        /\ inFlightFetches s' = inFlightFetches s)
               False (runRequest env fuel r s))).
Proof.
  intros Hsend Hblock blockID stop fetch Hretr Hfin.
  assert (bool_decide (req_prefetchStatus r = FinishedPrefetch) || IsTail b
          = true) as Hcond.
  { destruct Hfin as [Hfin|Hfin].
    - by rewrite bool_decide_eq_true_2.
    - rewrite Hfin. apply orb_true_r. }
  unfold runRequest. rewrite bind_eq, get_eq. cbv beta iota zeta.
  fold blockID. split.
  - intros Hpre. rewrite Hpre. rewrite bind_eq, mret_eq. cbv beta iota.
    rewrite bind_eq, clearRescheduleState_cleared. cbv beta iota.
    rewrite Hsend, Hblock. unfold blockNewEmpty. split.
    + intros Hstatus. mrun.
      rewrite cleared_trace. fold stop. rewrite Hretr, Hcond.
      unfold runRequestFinished.
      rewrite bool_decide_eq_true_2 by done. done.
    + intros Hstatus k Hkmd. mrun.
      rewrite cleared_trace. fold stop. rewrite Hretr, Hcond.
      unfold runRequestFinished.
      rewrite bool_decide_eq_false_2 by done.
      cbn [negb]. subst fetch. rewrite Hkmd. unfold kmdTlfID. by mrun.
  - intros pre Hpre. rewrite Hpre.
    set (count := subtreeBlockCount (heap s !!! pre)).
    set (s1 := match req (heap s !!! pre) with
               | None =>
                   set_heap <[pre := set_req (Some r) (heap s !!! pre)]> s
               | Some _ => s
               end).
    assert (exists aliased : bool,
              (pp ← getPrefetch pre;
               match req pp with
               | None => modifyPrefetch pre (set_req (Some r));; mret true
               | Some _ => mret false
               end) s = Ok aliased s1) as [aliased Hfix].
    { subst s1. mrun. destruct (req (heap s !!! pre)); mrun; by eexists. }
    rewrite bind_eq, Hfix. cbv beta iota.
    rewrite bind_eq, clearRescheduleState_cleared. cbv beta iota.
    rewrite Hsend, Hblock. unfold blockNewEmpty. mrun.
    assert (rescheduled s1 = rescheduled s) as Hr1
      by (subst s1; by case_match).
    assert (prefetches s1 = prefetches s) as Hp1
      by (subst s1; by case_match).
    assert (trace s1 = trace s) as Ht1 by (subst s1; by case_match).
    assert (inFlightFetches s1 = inFlightFetches s) as Hf1
      by (subst s1; by case_match).
    assert (forall l, subtreeBlockCount (heap s1 !!! l)
                      = subtreeBlockCount (heap s !!! l)
                      /\ parents (heap s1 !!! l) = parents (heap s !!! l))
      as Hheap1.
    { intros l. subst s1. case_match; [done|]. sproj.
      destruct (decide (l = pre)) as [->|Hne].
      - by rewrite lookup_total_insert_eq.
      - by rewrite lookup_total_insert_ne. }
    rewrite cleared_trace. unfold pendingTimer. rewrite Hr1, Ht1.
    fold (pendingTimer s blockID). fold stop. rewrite Hretr, Hcond.
    unfold runRequestFinished. mrun.
    set (s2 := set_trace _ (cleared blockID s1)).
    destruct (cleared_dom blockID s1) as (Hp2 & _ & Hh2 & Hf2).
    assert (heap s2 = heap s1) as Hh2' by (subst s2; by sproj).
    rewrite Hh2'. destruct (Hheap1 pre) as [Hcount _]. rewrite Hcount.
    fold count. split.
    + intros Hneg. apply Z.ltb_lt in Hneg. by rewrite Hneg.
    + intros Hpos Hranked Hfuel.
      assert ((count <? 0) = false) as -> by lia.
      split.
      * exists s2. split; [done|]. subst s2. sproj.
        rewrite cleared_trace. unfold pendingTimer. rewrite Hr1, Ht1.
        fold (pendingTimer s blockID). fold stop. by rewrite app_assoc.
      * assert (ranked h s2) as Hranked2.
        { intros l n pptr lp Hin Hlp. apply (Hranked l n pptr lp).
          - unfold bucket in *. rewrite Hh2' in Hin.
            destruct (Hheap1 l) as [_ Hpar]. by rewrite Hpar in Hin.
          - subst s2. sproj. by rewrite Hp2, Hp1 in Hlp. }
        pose proof (complete_whole_count h fuel blockID pre s2 Hranked2
                      Hfuel) as Hwalk.
        rewrite Hh2', Hcount in Hwalk. fold count in Hwalk.
        eapply outcome_impl; [|exact Hwalk].
        intros [] s' (Hgone & Hsub & Hinflight).
        split; [done|]. split.
        -- etrans; [exact Hsub|]. subst s2. sproj. by rewrite Hp2, Hp1.
        -- rewrite Hinflight. subst s2. sproj. by rewrite Hf2, Hf1.
Qed.

(** * Further properties of the prefetcher *)

(** ** [cancelPrefetch] *)

(** X1.  [cancelPrefetch] drops the parents recorded under the pointer's
    refnonce.  While the record still has parents under another refnonce it
    stays in [prefetches], stays open, and nothing else changes.  When no
    refnonce is left, the record is removed from [prefetches] and closed, and
    the block's reschedule timer is stopped and its [rescheduled] entry
    deleted. *)
Theorem cancelPrefetch_spec (ptr : BlockPointer) (pp : loc) (s : State) :
  let p := heap s !!! pp in
  let rest := delete (RefNonce ptr) (parents p) in
  (rest ≠ ∅ ->
   cancelPrefetch ptr pp s
   = Ok tt (set_heap <[pp := set_parents rest p]> s))
  /\ (rest = ∅ -> waitChClosed p = false ->
      exists s',
        cancelPrefetch ptr pp s = Ok tt s'
        /\ prefetches s' = delete (ID ptr) (prefetches s)
        /\ rescheduled s' = delete (ID ptr) (rescheduled s)
        /\ heap s'
           = <[pp := set_waitChClosed true (set_parents ∅ p)]> (heap s)
        /\ trace s'
           = trace s ++ [EffClose pp]
             ++ match pendingTimer s (ID ptr) with
                | Some _ => [EffTimerStop (ID ptr)]
                | None => []
                end).
Proof.
  intros p rest. unfold cancelPrefetch. do 4 mstep. sproj.
  rewrite lookup_total_insert_eq. sproj. fold p. fold rest. split.
  - intros Hrest. destruct (decide _) as [Hsize|Hsize]; [|by mrun].
    apply map_size_empty_iff in Hsize. done.
  - intros Hrest Hopen. rewrite Hrest.
    destruct (decide _) as [_|Hsize];
      [|by rewrite map_size_empty in Hsize].
    mrun. rewrite Close_eq. sproj. rewrite lookup_total_insert_eq. sproj.
    rewrite Hopen. rewrite bind_eq, clearRescheduleState_cleared.
    cbv beta iota. mrun.
    set (s1 := set_trace _ _).
    destruct (cleared_dom (ID ptr) s1) as (Hp & _ & Hh & _).
    eexists. split; [reflexivity|]. sproj. rewrite Hp, Hh, cleared_trace.
    subst s1. sproj. rewrite insert_insert_eq.
    split; [done|]. split; [|split; [done|]].
    + unfold cleared. sproj.
      destruct (rescheduled s !! ID ptr) as [rp|] eqn:Hrp; [|done].
      destruct (timer rp); [|done]. sproj. by rewrite delete_insert_eq.
    + unfold pendingTimer. sproj. by rewrite <- app_assoc.
Qed.

(** ** [clearRescheduleState] *)

(** X2.  [clearRescheduleState] returns with the block's timer stopped and
    nil; it keeps every key and every backoff of [rescheduled] and every
    other timer, and touches neither [prefetches] nor the records.  For a
    block with no armed timer (in particular one with no entry) it does
    nothing, so clearing twice is clearing once. *)
Theorem clearRescheduleState_spec (blockID : kbfsblock_ID) (s : State) :
  exists s',
    clearRescheduleState blockID s = Ok tt s'
    /\ pendingTimer s' blockID = None
    /\ (forall id, off <$> rescheduled s' !! id = off <$> rescheduled s !! id)
    /\ (forall id, id ≠ blockID -> rescheduled s' !! id = rescheduled s !! id)
    /\ prefetches s' = prefetches s
    /\ heap s' = heap s
    /\ (pendingTimer s blockID = None -> s' = s)
    /\ clearRescheduleState blockID s' = Ok tt s'.
Proof.
  exists (cleared blockID s).
  split; [apply clearRescheduleState_cleared|].
  assert (forall s0, pendingTimer s0 blockID = None -> cleared blockID s0 = s0)
    as Hnone.
  { intros s0. unfold pendingTimer, cleared.
    destruct (rescheduled s0 !! blockID) as [rp|]; [|done]. cbn.
    by intros ->. }
  assert (pendingTimer (cleared blockID s) blockID = None) as Hcleared.
  { unfold pendingTimer, cleared.
    destruct (rescheduled s !! blockID) as [rp|] eqn:Hrp.
    - destruct (timer rp) eqn:Htm; sproj.
      + by rewrite lookup_insert_eq.
      + by rewrite Hrp.
    - by rewrite Hrp. }
  split; [done|].
  split; [|split; [|split; [|split; [|split]]]].
  - intros id. unfold cleared.
    destruct (rescheduled s !! blockID) as [rp|] eqn:Hrp; [|done].
    destruct (timer rp); [|done]. sproj.
    destruct (decide (id = blockID)) as [->|Hne].
    + by rewrite lookup_insert_eq, Hrp.
    + by rewrite lookup_insert_ne.
  - intros id Hne. unfold cleared.
    destruct (rescheduled s !! blockID) as [rp|]; [|done].
    destruct (timer rp); [|done]. sproj. by rewrite lookup_insert_ne.
  - apply cleared_dom.
  - apply cleared_dom.
  - apply Hnone.
  - rewrite clearRescheduleState_cleared. by rewrite Hnone.
Qed.

(** ** [rescheduleTopBlock] *)

(** X3.  A top-level block whose reschedule timer is already armed: the
    record is removed from [prefetches] and closed, and [rescheduled] is
    left as it is; the backoff is not asked again and no second timer is
    made. *)
Theorem rescheduleTopBlock_already_scheduled (blockID : kbfsblock_ID)
  (pp : loc) (s : State) (rp : rescheduledPrefetch) (tm : Timer) :
  parents (heap s !!! pp) = ∅ ->
  waitChClosed (heap s !!! pp) = false ->
  rescheduled s !! blockID = Some rp -> timer rp = Some tm ->
  rescheduleTopBlock env blockID pp s
  = Ok tt (set_trace (fun t => t ++ [EffClose pp])
             (set_heap <[pp := set_waitChClosed true (heap s !!! pp)]>
                (set_prefetches (delete blockID) s))).
Proof.
  intros Hpar Hopen Hrp Htm. unfold rescheduleTopBlock.
  mrun. rewrite Hpar.
  destruct (decide (size (∅ : gmap N (gset BlockPointer)) ≠ 0%nat))
    as [Hne|_]; [by rewrite map_size_empty in Hne|].
  mrun. rewrite Close_eq. sproj. rewrite Hopen. mrun. sproj.
  rewrite Hrp. mrun. rewrite Htm. by mrun.
Qed.

Lemma rescheduleTopBlock_arms (blockID : kbfsblock_ID) (pp : loc)
  (s : State) (r : prefetchRequest) (o o' : BackOff) (d : time_Duration) :
  parents (heap s !!! pp) = ∅ ->
  waitChClosed (heap s !!! pp) = false ->
  req (heap s !!! pp) = Some r ->
  match rescheduled s !! blockID with
  | Some rp => timer rp = None /\ off rp = o
  | None => makeNewBackOff env = o
  end ->
  NextBackOff o = (Some d, o') ->
  exists s',
    rescheduleTopBlock env blockID pp s = Ok tt s'
    /\ prefetches s' = delete blockID (prefetches s)
    /\ waitChClosed (heap s' !!! pp) = true
    /\ rescheduled s'
       = <[blockID := mkRescheduledPrefetch o' (Some (mkTimer d r))]>
           (rescheduled s)
    /\ pendingTimer s' blockID = Some (mkTimer d r)
    /\ prefetchRequestCh s' = prefetchRequestCh s
    /\ trace s' = trace s ++ [EffClose pp; EffAfterFunc blockID d]
    /\ (shutdownCh s = false ->
        timerCallback env (mkTimer d r) s'
        = Ok tt (set_prefetchRequestCh (fun q => q ++ [r]) s')).
Proof.
  intros Hpar Hopen Hreq Hrp Hnext.
  unfold rescheduleTopBlock.
  mrun. rewrite Hpar.
  destruct (decide (size (∅ : gmap N (gset BlockPointer)) ≠ 0%nat))
    as [Hne|_]; [by rewrite map_size_empty in Hne|].
  mrun. rewrite Close_eq. sproj. rewrite Hopen. mrun. sproj.
  assert (forall s1, shutdownCh s1 = false ->
                     timerCallback env (mkTimer d r) s1
                     = Ok tt (set_prefetchRequestCh (fun q => q ++ [r]) s1))
    as Hfire.
  { intros s1 Hs1. unfold timerCallback, triggerPrefetch. mrun.
    by rewrite Hs1. }
  destruct (rescheduled s !! blockID) as [rp|] eqn:Hlook.
  - destruct Hrp as [Htimer Hoff].
    mrun. rewrite Htimer. mrun. sproj.
    rewrite lookup_total_insert_eq. sproj. rewrite Hreq.
    rewrite Hoff, Hnext. mrun. sproj.
    eexists; split; [reflexivity|]. sproj.
    rewrite lookup_total_insert_eq. unfold pendingTimer. sproj.
    rewrite lookup_insert_eq, insert_insert_eq, <- app_assoc.
    repeat split; try done. intros Hs. by apply Hfire.
  - cbv zeta. mrun. cbn [timer off]. mrun. sproj.
    rewrite lookup_total_insert_eq. sproj. rewrite Hreq.
    rewrite Hrp, Hnext. mrun. sproj.
    eexists; split; [reflexivity|]. sproj.
    rewrite lookup_total_insert_eq. unfold pendingTimer. sproj.
    rewrite lookup_insert_eq, !insert_insert_eq, <- app_assoc.
    repeat split; try done. intros Hs. by apply Hfire.
Qed.

(** X4.  A top-level block whose backoff answers a delay [d]: the record is
    removed from [prefetches] and closed, a timer for [d] is armed that holds
    a copy of the record's request, and nothing is on the request channel
    yet.  When the timer fires and the prefetcher is not shut down, its
    callback puts that request on the request channel. *)
Theorem rescheduleTopBlock_arms_timer (blockID : kbfsblock_ID) (pp : loc)
  (s : State) (r : prefetchRequest) (o o' : BackOff) (d : time_Duration) :
  parents (heap s !!! pp) = ∅ ->
  waitChClosed (heap s !!! pp) = false ->
  req (heap s !!! pp) = Some r ->
  match rescheduled s !! blockID with
  | Some rp => timer rp = None /\ off rp = o
  | None => makeNewBackOff env = o
  end ->
  NextBackOff o = (Some d, o') ->
  exists s',
    rescheduleTopBlock env blockID pp s = Ok tt s'
    /\ prefetches s' = delete blockID (prefetches s)
    /\ waitChClosed (heap s' !!! pp) = true
    /\ rescheduled s'
       = <[blockID := mkRescheduledPrefetch o' (Some (mkTimer d r))]>
           (rescheduled s)
    /\ pendingTimer s' blockID = Some (mkTimer d r)
    /\ prefetchRequestCh s' = prefetchRequestCh s
    /\ trace s' = trace s ++ [EffClose pp; EffAfterFunc blockID d]
    /\ (shutdownCh s = false ->
        timerCallback env (mkTimer d r) s'
        = Ok tt (set_prefetchRequestCh (fun q => q ++ [r]) s')).
Proof. apply rescheduleTopBlock_arms. Qed.

(** X5.  Whenever [rescheduleTopBlock] returns, the block is out of
    [prefetches]; and a block that has parents is cancelled rather than
    rescheduled: [rescheduled] gets no new key. *)
Theorem rescheduleTopBlock_leaves_prefetches (blockID : kbfsblock_ID)
  (pp : loc) (s s' : State) :
  rescheduleTopBlock env blockID pp s = Ok tt s' ->
  prefetches s' !! blockID = None
  /\ (parents (heap s !!! pp) ≠ ∅ ->
      dom (rescheduled s') ⊆ dom (rescheduled s)).
Proof.
  intros Hrun. split.
  - eapply (rescheduleTopBlock_disjointExcept
              (dom (prefetches s) ∩ dom (rescheduled s))); [|exact Hrun].
    unfold disjointExcept. done.
  - intros Hpar. unfold rescheduleTopBlock in Hrun.
    rewrite bind_eq, getPrefetch_eq in Hrun. cbv beta iota in Hrun.
    destruct (decide _) as [_|Hsize].
    + eapply (preserves_forEach
                (fun s0 => dom (rescheduled s0) ⊆ dom (rescheduled s)));
        [|reflexivity|exact Hrun].
      intros refNonce.
      apply (preserves_cancelPrefetch
               (fun m => dom m ⊆ dom (rescheduled s))).
      * intros k m Hm. rewrite dom_delete. set_solver.
      * intros k rp m Hk Hm. rewrite dom_insert.
        apply elem_of_dom_2 in Hk. set_solver.
    + exfalso. apply Hsize. intros Hzero. apply Hpar.
      by apply map_size_empty_iff.
Qed.

End Properties.

(** * The properties at work in the sample world *)

Import Sample.

(** [completePrefetch 1] on a record with count 1, retrieval succeeding: the
    zero case of [completePrefetch_spec]. *)
Lemma completePrefetch_spec_witness :
  exists s',
    completePrefetch envRoom 1 3 1 (oneRecord 3 (waiting 3 leaf 1)) = Ok tt s'
    /\ prefetches s' = delete 3%N (prefetches (oneRecord 3 (waiting 3 leaf 1)))
    /\ trace s'
       = [EffRequest 100 (Some tt) (ptrOf 3) leaf tt BlockRequestSolo;
          EffPutInCaches (ptrOf 3) tt leaf tt FinishedPrefetch;
          EffClose 1].
Proof.
  destruct (completePrefetch_spec envRoom 1 3 1
              (oneRecord 3 (waiting 3 leaf 1))
              (requestFor 3 leaf prefetchAction) leaf tt
              eq_refl eq_refl eq_refl eq_refl) as (_ & _ & _ & Hzero).
  destruct (Hzero eq_refl) as (s' & Hrun & Hp & _ & _ & Htrace).
  exists s'. split; [exact Hrun|]. split; [exact Hp|exact Htrace].
Defined.

(** C1 fails as stated: the count reaches 0, the record is removed and
    closed, the solo fetch is issued, and since the fetch fails nothing is
    put in the caches. *)
Lemma completePrefetch_fetch_fails :
  exists s',
    completePrefetch envDown 1 3 1 (oneRecord 3 (waiting 3 leaf 1)) = Ok tt s'
    /\ subtreeBlockCount (heap s' !!! 1%positive) = 0
    /\ prefetches s' !! 3%N = None
    /\ trace s'
       = [EffRequest 100 (Some tt) (ptrOf 3) leaf tt BlockRequestSolo;
          EffClose 1].
Proof.
  eexists. split; [vm_compute; reflexivity|].
  repeat split; vm_compute; reflexivity.
Qed.

(** A sync request for [a] that was rescheduled, seen when its timer fires. *)
Lemma both_maps_witness :
  dom (prefetches
         (stateAfter envRoom [EvReschedule (requestFor 1 blockA syncAction)]))
  ## dom (rescheduled
            (stateAfter envRoom
               [EvReschedule (requestFor 1 blockA syncAction)])).
Proof.
  apply (both_maps envRoom 10 (EvReschedule (requestFor 1 blockA syncAction))
           newBlockPrefetcher).
  - cbn. apply disjoint_empty_l.
  - vm_compute. reflexivity.
Defined.

(** C2 fails as stated: the block is rescheduled, then requested again when
    its timer fires; the request makes it active and its [rescheduled] entry
    stays, so it is in both maps when the iteration ends. *)
Lemma rescheduled_then_requested :
  exists s1 s2,
    runEvents envRoom 10 [EvReschedule (requestFor 1 blockA syncAction)]
      newBlockPrefetcher = Ok tt s1
    /\ runIteration envRoom 10 (EvRequest (requestFor 1 blockA syncAction)) s1
       = Ok tt s2
    /\ dom (prefetches s1) ## dom (rescheduled s1)
    /\ is_Some (prefetches s2 !! 1%N)
    /\ is_Some (rescheduled s2 !! 1%N).
Proof.
  eexists. eexists. split; [vm_compute; reflexivity|].
  split; [vm_compute; reflexivity|].
  split; [cbn; apply disjoint_empty_l|].
  split; vm_compute; eauto.
Qed.

Lemma runRequest_wait_channel_witness :
  exists s',
    runRequest envRoom 10 (waitChannelRequest (ptrOf 1) 7) newBlockPrefetcher
    = Ok tt s'
    /\ prefetches s' = ∅
    /\ trace s' = [EffSend 7 closedCh].
Proof.
  destruct (runRequest_wait_channel envRoom 10
              (waitChannelRequest (ptrOf 1) 7) 7 newBlockPrefetcher eq_refl)
    as (s' & Hrun & Hp & _ & _ & _ & Htrace & _).
  exists s'. split; [exact Hrun|]. split; [exact Hp|exact Htrace].
Defined.

(** C3 fails as stated: a wait-channel request for a rescheduled block stops
    the block's timer, so [rescheduled] is not left unchanged. *)
Lemma wait_channel_stops_timer :
  exists s1 s2,
    runEvents envRoom 10 [EvReschedule (requestFor 1 blockA syncAction)]
      newBlockPrefetcher = Ok tt s1
    /\ runRequest envRoom 10 (waitChannelRequest (ptrOf 1) 7) s1 = Ok tt s2
    /\ pendingTimer s1 1
       = Some (mkTimer 1000 (requestFor 1 blockA syncAction))
    /\ pendingTimer s2 1 = None
    /\ trace s2 = trace s1 ++ [EffTimerStop 1; EffSend 7 closedCh].
Proof.
  eexists. eexists. split; [vm_compute; reflexivity|].
  split; [vm_compute; reflexivity|].
  repeat split; vm_compute; reflexivity.
Qed.

Lemma request_spec_witness :
  exists pre s' n,
    request (H := externals) 9 (Some tt) (ptrOf 2) (DirBlock false [] ∅) tt (ptrOf 1) false
      prefetchAction ∅ (oneRecord 1 (waiting 1 blockA 0))
    = Ok (n, ∅ ∪ {[2%N]}) s'
    /\ prefetches s' !! 2%N = Some pre
    /\ ptrOf 1 ∈ bucket (heap s' !!! pre) 0
    /\ n = subtreeBlockCount (heap s' !!! pre).
Proof.
  destruct (request_spec (H := externals) 9 (Some tt) (ptrOf 2) (DirBlock false [] ∅) tt
              (ptrOf 1) false prefetchAction ∅
              (oneRecord 1 (waiting 1 blockA 0))) as [_ Hnew].
  destruct Hnew as (pre & s' & n & Hrun & Hpre & Hedge & Hn).
  - apply not_elem_of_empty.
  - vm_compute. eauto.
  - intros pre Hpre. vm_compute in Hpre. discriminate.
  - exists pre, s', n. split; [exact Hrun|]. split; [exact Hpre|].
    split; [exact Hedge|exact Hn].
Defined.

(** C4 fails as stated: the edge from [b] to [a] is already recorded, the
    parent's record is new, and the call returns the child's count, not 0.
    A second pointer to a block ID already seen in the enumeration records
    no edge at all. *)
Lemma request_known_edge_new_parent :
  ptrOf 1 ∈ bucket (heap parentAgain !!! 2%positive) 0
  /\ (exists seen s',
        request (H := externals) 9 (Some tt) (ptrOf 2) (DirBlock false [] ∅) tt (ptrOf 1) true
          prefetchAction ∅ parentAgain = Ok (1, seen) s')
  /\ request (H := externals) 9 (Some tt) (mkBlockPointer 2 5) (DirBlock false [] ∅) tt
       (ptrOf 1) true prefetchAction {[2%N]} parentAgain
     = Ok (0, {[2%N]}) parentAgain
  /\ bucket (heap parentAgain !!! 2%positive) 5 = ∅.
Proof.
  split; [vm_compute; reflexivity|].
  split; [eexists; eexists; vm_compute; reflexivity|].
  split; vm_compute; reflexivity.
Qed.

(** A finished request for a block that is the only active record. *)
Lemma runRequest_finished_witness :
  outcome (fun _ s' =>
             prefetches s' !! 3%N = None
             /\ prefetches s' ⊆ prefetches (oneRecord 3 (waiting 3 leaf 1))
             /\ inFlightFetches s' = [])
    False
    (runRequest envRoom 1 (finishedRequestFor 3 leaf)
       (oneRecord 3 (waiting 3 leaf 1))).
Proof.
  destruct (runRequest_finished envRoom 1 (finishedRequestFor 3 leaf)
              (oneRecord 3 (waiting 3 leaf 1)) leaf leaf (fun _ => 0%nat)
              eq_refl eq_refl eq_refl (or_introl eq_refl)) as [_ Hactive].
  destruct (Hactive 1%positive eq_refl) as [_ Hwalk].
  apply Hwalk.
  - vm_compute. discriminate.
  - intros l n pptr lp Hin _. exfalso. revert Hin.
    unfold oneRecord, bucket. cbn [heap].
    destruct (decide (l = 1%positive)) as [->|Hne].
    + rewrite lookup_total_singleton_eq. cbn. apply not_elem_of_empty.
    + rewrite lookup_total_singleton_ne by done. cbn.
      apply not_elem_of_empty.
  - apply Nat.lt_0_1.
Defined.

(** C5 fails as stated: a finished request for a block that is not active
    is answered by the solo retrieval alone; nothing is put in the caches. *)
Lemma finished_inactive_not_cached :
  exists s',
    runRequest envRoom 10 (finishedRequestFor 3 leaf) newBlockPrefetcher
    = Ok tt s'
    /\ prefetches newBlockPrefetcher !! 3%N = None
    /\ trace s'
       = [EffRequest 100 (Some tt) (ptrOf 3) leaf tt
            (SoloAction (prefetchAction : BlockRequestAction))].
Proof.
  eexists. split; [vm_compute; reflexivity|].
  split; vm_compute; reflexivity.
Qed.

Lemma stopIfNeeded_spec_witness :
  exists s',
    stopIfNeeded envFull (requestFor 1 blockA syncAction) newBlockPrefetcher
    = Ok true s'
    /\ prefetchRescheduleCh s' = [requestFor 1 blockA syncAction].
Proof.
  destruct (stopIfNeeded_spec envFull (requestFor 1 blockA syncAction)
              newBlockPrefetcher) as [Hsync _].
  destruct (Hsync eq_refl eq_refl) as (s' & _ & Hstop & Hqueue).
  exists s'. split; [exact Hstop|].
  rewrite (Hqueue eq_refl). reflexivity.
Defined.

Lemma abort_branches_witness :
  decrementPrefetch (H := externals) 3 1 (oneRecord 3 (waiting 3 leaf 1))
  = Ok tt (set_heap <[1%positive := set_subtreeBlockCount (1 - 1)
                                      (waiting 3 leaf 1)]>
             (oneRecord 3 (waiting 3 leaf 1))).
Proof.
  destruct (abort_branches envRoom (oneRecord 3 (waiting 3 leaf 1)) 3 1 1 9
              (Some tt) (ptrOf 2) leaf tt (ptrOf 1) false prefetchAction ∅)
    as (_ & _ & _ & Hdec & _).
  apply Hdec. vm_compute. split; [discriminate|reflexivity].
Defined.

(** C7 fails as stated: a count of 0 satisfies [subtreeBlockCount >= 0],
    and decrementing it aborts. *)
Lemma decrement_at_zero_aborts :
  0 <= subtreeBlockCount (heap (oneRecord 3 (waiting 3 leaf 0)) !!! 1%positive)
  /\ decrementPrefetch (H := externals) 3 1 (oneRecord 3 (waiting 3 leaf 0))
     = Panic "decrementPrefetch overstepped its bounds".
Proof. split; [vm_compute; discriminate|vm_compute; reflexivity]. Qed.

Lemma prefetchDirectDirBlock_spec_witness :
  exists numBlocks isTail s' t',
    prefetchDirectDirBlock (H := externals) (ptrOf 2)
      (<["c" := dirEntry 3 File 5]>
         (<["d" := dirEntry 4 File 2]>
            (<["l" := dirEntry 8 Sym 1]> ∅)))
      (Some tt) tt true prefetchAction 10 (oneRecord 2 (waiting 2 blockB 0))
    = Ok (numBlocks, isTail) s'
    /\ trace s' = t'
    /\ prefetchingLog t' = [ptrOf 4; ptrOf 3]
    /\ isTail = false.
Proof.
  destruct (prefetchDirectDirBlock_spec (H := externals) (ptrOf 2)
              (<["c" := dirEntry 3 File 5]>
                 (<["d" := dirEntry 4 File 2]>
                    (<["l" := dirEntry 8 Sym 1]> ∅)))
              (Some tt) tt true prefetchAction 10
              (oneRecord 2 (waiting 2 blockB 0)))
    as (numBlocks & isTail & s' & t' & Hrun & Htrace & Hlog & _ & _ & _
        & Htail).
  - vm_compute. eauto.
  - intros id l Hl. unfold oneRecord in *. cbn [prefetches heap] in *.
    apply lookup_singleton_Some in Hl as [_ <-].
    rewrite lookup_total_singleton_eq. cbn. eauto.
  - exists numBlocks, isTail, s', t'. split; [exact Hrun|].
    split; [exact Htrace|]. split; [exact Hlog|].
    destruct isTail; [|reflexivity].
    destruct Htail as [Htail _]. specialize (Htail eq_refl).
    vm_compute in Htail. discriminate.
Defined.

Lemma after_shutdown_witness :
  WaitChannelForBlockPrefetch (H := externals) (ptrOf 1) 7 false (Shutdown newBlockPrefetcher)
    None false (Shutdown newBlockPrefetcher)
    (inr (errorsNew "Already shut down")).
Proof.
  destruct (after_shutdown (H := externals) (ptrOf 1) 7 false (Shutdown newBlockPrefetcher)
              None false (Shutdown newBlockPrefetcher) eq_refl eq_refl)
    as (Herr & _).
  exact Herr.
Defined.

(** C9 fails as stated: after [Shutdown], a call whose context is done may
    return [ctx.Err()], and [CancelPrefetch] may still enqueue. *)
Lemma after_shutdown_other_cases :
  shutdownCh (Shutdown newBlockPrefetcher) = true
  /\ WaitChannelForBlockPrefetch (H := externals) (ptrOf 1) 7 true (Shutdown newBlockPrefetcher)
       None true (Shutdown newBlockPrefetcher) (inr ctxErr)
  /\ (inr ctxErr : WaitSignal + error) ≠ inr (errorsNew "Already shut down")
  /\ CancelPrefetch (H := externals) (ptrOf 1) (Shutdown newBlockPrefetcher)
       (set_prefetchCancelCh (fun q => q ++ [ptrOf 1])
          (Shutdown newBlockPrefetcher))
  /\ prefetchCancelCh
       (set_prefetchCancelCh (fun q => q ++ [ptrOf 1])
          (Shutdown newBlockPrefetcher)) = [ptrOf 1].
Proof.
  split; [reflexivity|]. split.
  - left. exists ctxErr. split; [|reflexivity].
    unfold WaitChannelForBlockPrefetch_send, selects.
    apply list_elem_of_In. cbn. auto.
  - split; [discriminate|]. split; [|reflexivity].
    unfold CancelPrefetch, selects. apply list_elem_of_In. cbn. auto.
Qed.

(** A top-level block rescheduled in a world whose backoff has stopped. *)
Lemma rescheduleTopBlock_backoff_stop_witness :
  exists s',
    rescheduleTopBlock envStopped 1 1 (oneRecord 1 (waiting 1 blockA 1))
    = Ok tt s'
    /\ prefetches s' !! 1%N = None
    /\ rescheduled s' !! 1%N = Some (mkRescheduledPrefetch [] None)
    /\ prefetchRequestCh s' = []
    /\ trace s' = [EffClose 1].
Proof.
  destruct (rescheduleTopBlock_backoff_stop envStopped 1 1
              (oneRecord 1 (waiting 1 blockA 1))
              (requestFor 1 blockA prefetchAction) [] []
              eq_refl eq_refl eq_refl eq_refl eq_refl)
    as (s' & Hrun & Hp & _ & Hr & _ & Hq & Htrace).
  exists s'. split; [exact Hrun|].
  split; [rewrite Hp; apply lookup_delete_eq|].
  split; [rewrite Hr; apply lookup_insert_eq|].
  split; [exact Hq|exact Htrace].
Defined.

